(** * Logo_Generator: the workflow controller of [src/App.tsx]

    The component [App] owns eleven state hooks, five event handlers and one
    interval effect.  This development embeds them shallowly:

    - JavaScript strings are sequences of UTF-16 code units ([jstring]);
      [trim], [includes], [split] and [indexOf] are written out.
    - A handler is a term of the free monad [Proc]: setter calls and
      [console.error] are synchronous effects, every [await] is a node whose
      continuation receives the settled promise.  [try]/[catch]/[finally]
      are combinators on [Proc].
    - [exec] runs a handler to completion against an environment that
      settles each awaited call (one operation in isolation); [Live] is the
      event-loop semantics, where a handler is parked at each [await] and
      other events, timer ticks included, may be served in between.

    The collaborators ([generateLogoImage], [generateLogoVideo],
    [fileToBase64], [window.aistudio]) are not part of the component: a run
    is stated for every way their promises may settle.  A thrown value is
    taken to be an object whose [message], if any, is a string.  React is
    taken to render once after each synchronous segment of a handler and
    to run the effects of that render before the next event is served. *)

From Stdlib Require Import String Ascii NArith ZArith Bool List Lia.
Import ListNotations.

(** ** JavaScript strings *)

Module JS.

(** A string value is its sequence of UTF-16 code units. *)
Definition jstring : Type := list N.

(** A source literal.  Every literal of [App.tsx] is ASCII, so one
    character is one code unit. *)
Definition lit (s : string) : jstring :=
  map N_of_ascii (list_ascii_of_string s).

(** [WhiteSpace] and [LineTerminator] of ECMA-262, the code points that
    [String.prototype.trim] strips.  All of them lie in the BMP. *)
Definition is_white_space (c : N) : bool :=
  match c with
  | 0x0009 | 0x000A | 0x000B | 0x000C | 0x000D | 0x0020 | 0x00A0
  | 0x1680 | 0x2028 | 0x2029 | 0x202F | 0x205F | 0x3000 | 0xFEFF => true
  | _ => (0x2000 <=? c) && (c <=? 0x200A)
  end%N.

Fixpoint trimStart (s : jstring) : jstring :=
  match s with
  | [] => []
  | c :: r => if is_white_space c then trimStart r else s
  end.

Definition trimEnd (s : jstring) : jstring := rev (trimStart (rev s)).

(** [s.trim()] *)
Definition trim (s : jstring) : jstring := trimEnd (trimStart s).

(** [a === b] on strings. *)
Fixpoint str_eqb (a b : jstring) : bool :=
  match a, b with
  | [], [] => true
  | x :: a', y :: b' => N.eqb x y && str_eqb a' b'
  | _, _ => false
  end.

Fixpoint startsWith (p s : jstring) : bool :=
  match p, s with
  | [], _ => true
  | x :: p', y :: s' => N.eqb x y && startsWith p' s'
  | _ :: _, [] => false
  end.

(** [s.includes(p)] *)
Fixpoint includes (s p : jstring) : bool :=
  startsWith p s ||
  match s with
  | [] => false
  | _ :: r => includes r p
  end.

(** [s.split(sep)] for a one-unit separator: the pieces between the
    occurrences of [sep], never an empty array. *)
Fixpoint split (sep : N) (s : jstring) : list jstring :=
  match s with
  | [] => [[]]
  | c :: r =>
      if N.eqb c sep then [] :: split sep r
      else match split sep r with
           | [] => [[c]]
           | piece :: rest => (c :: piece) :: rest
           end
  end.

(** [arr.indexOf(x)]: the first index holding [x], [-1] when there is none. *)
Fixpoint indexOf (arr : list jstring) (x : jstring) : Z :=
  match arr with
  | [] => (-1)%Z
  | y :: r =>
      if str_eqb y x then 0%Z
      else match indexOf r x with
           | Zneg _ => (-1)%Z
           | i => Z.succ i
           end
  end.

(** Truthiness of a [string | null | undefined] value: only a present,
    non-empty string is truthy. *)
Definition truthy (v : option jstring) : bool :=
  match v with
  | Some (_ :: _) => true
  | _ => false
  end.

(** [v || fallback] where [v] is a string or absent. *)
Definition or_else (v : option jstring) (fallback : jstring) : jstring :=
  match v with
  | Some (c :: r) => c :: r
  | _ => fallback
  end.

End JS.
Import JS.

(** ** The session state: the hooks of [App] *)

(** [type AspectRatio = '16:9' | '9:16'] *)
Inductive AspectRatio : Type :=
| Ratio_16_9
| Ratio_9_16.

(** [const videoLoadingMessages = [...]] *)
Definition videoLoadingMessages : list jstring :=
  [ lit "Warming up the animation engine...";
    lit "Teaching the pixels to dance...";
    lit "Composing a symphony of light and motion...";
    lit "This can take a few minutes, please be patient...";
    lit "Rendering the final masterpiece...";
    lit "Almost there, adding the final sparkle..." ].

(** [arr[i]] for an index computed as a number: [undefined] out of range. *)
Definition at_index (arr : list jstring) (i : Z) : option jstring :=
  match i with
  | Zneg _ => None
  | _ => nth_error arr (Z.to_nat i)
  end.

(** One field per [useState] hook, under the hook's name.  A nullable
    string is an [option]; [videoLoadingMessage] is an array read, so it is
    nullable in the model even though the code never stores [undefined]. *)
Record State : Type := mkState {
  logoPrompt : jstring;
  animationPrompt : jstring;
  generatedLogo : option jstring;
  generatedVideo : option jstring;
  logoToAnimate : option jstring;
  isGeneratingLogo : bool;
  isGeneratingVideo : bool;
  error : option jstring;
  aspectRatio : AspectRatio;
  hasApiKey : bool;
  videoLoadingMessage : option jstring
}.

(** The initial values passed to [useState]. *)
Definition initialState : State :=
  {| logoPrompt :=
       lit "A minimalist, geometric fox logo, clean lines, orange and white.";
     animationPrompt :=
       lit "The fox logo winks, and then futuristic digital circuits glow behind it.";
     generatedLogo := None;
     generatedVideo := None;
     logoToAnimate := None;
     isGeneratingLogo := false;
     isGeneratingVideo := false;
     error := None;
     aspectRatio := Ratio_16_9;
     hasApiKey := false;
     videoLoadingMessage := at_index videoLoadingMessages 0 |}.

(** The synchronous effects of a handler: a call of one of the state
    setters with a value, or [console.error]. *)
Inductive Effect : Type :=
| setLogoPrompt (v : jstring)
| setAnimationPrompt (v : jstring)
| setGeneratedLogo (v : option jstring)
| setGeneratedVideo (v : option jstring)
| setLogoToAnimate (v : option jstring)
| setIsGeneratingLogo (v : bool)
| setIsGeneratingVideo (v : bool)
| setError (v : option jstring)
| setAspectRatio (v : AspectRatio)
| setHasApiKey (v : bool)
| console_error.

(** What a setter call does to the state. *)
Definition perform (e : Effect) (s : State) : State :=
  match e with
  | setLogoPrompt v =>
      mkState v (animationPrompt s) (generatedLogo s) (generatedVideo s)
        (logoToAnimate s) (isGeneratingLogo s) (isGeneratingVideo s) (error s)
        (aspectRatio s) (hasApiKey s) (videoLoadingMessage s)
  | setAnimationPrompt v =>
      mkState (logoPrompt s) v (generatedLogo s) (generatedVideo s)
        (logoToAnimate s) (isGeneratingLogo s) (isGeneratingVideo s) (error s)
        (aspectRatio s) (hasApiKey s) (videoLoadingMessage s)
  | setGeneratedLogo v =>
      mkState (logoPrompt s) (animationPrompt s) v (generatedVideo s)
        (logoToAnimate s) (isGeneratingLogo s) (isGeneratingVideo s) (error s)
        (aspectRatio s) (hasApiKey s) (videoLoadingMessage s)
  | setGeneratedVideo v =>
      mkState (logoPrompt s) (animationPrompt s) (generatedLogo s) v
        (logoToAnimate s) (isGeneratingLogo s) (isGeneratingVideo s) (error s)
        (aspectRatio s) (hasApiKey s) (videoLoadingMessage s)
  | setLogoToAnimate v =>
      mkState (logoPrompt s) (animationPrompt s) (generatedLogo s)
        (generatedVideo s) v (isGeneratingLogo s) (isGeneratingVideo s)
        (error s) (aspectRatio s) (hasApiKey s) (videoLoadingMessage s)
  | setIsGeneratingLogo v =>
      mkState (logoPrompt s) (animationPrompt s) (generatedLogo s)
        (generatedVideo s) (logoToAnimate s) v (isGeneratingVideo s) (error s)
        (aspectRatio s) (hasApiKey s) (videoLoadingMessage s)
  | setIsGeneratingVideo v =>
      mkState (logoPrompt s) (animationPrompt s) (generatedLogo s)
        (generatedVideo s) (logoToAnimate s) (isGeneratingLogo s) v (error s)
        (aspectRatio s) (hasApiKey s) (videoLoadingMessage s)
  | setError v =>
      mkState (logoPrompt s) (animationPrompt s) (generatedLogo s)
        (generatedVideo s) (logoToAnimate s) (isGeneratingLogo s)
        (isGeneratingVideo s) v (aspectRatio s) (hasApiKey s)
        (videoLoadingMessage s)
  | setAspectRatio v =>
      mkState (logoPrompt s) (animationPrompt s) (generatedLogo s)
        (generatedVideo s) (logoToAnimate s) (isGeneratingLogo s)
        (isGeneratingVideo s) (error s) v (hasApiKey s) (videoLoadingMessage s)
  | setHasApiKey v =>
      mkState (logoPrompt s) (animationPrompt s) (generatedLogo s)
        (generatedVideo s) (logoToAnimate s) (isGeneratingLogo s)
        (isGeneratingVideo s) (error s) (aspectRatio s) v
        (videoLoadingMessage s)
  | console_error => s
  end.

(** [setVideoLoadingMessage(prev => ...)], the only functional update: the
    message after [prev] in [videoLoadingMessages], wrapping around. *)
Definition nextLoadingMessage (prev : option jstring) : option jstring :=
  let currentIndex :=
    match prev with
    | Some m => indexOf videoLoadingMessages m
    | None => (-1)%Z
    end in
  let nextIndex :=
    Z.rem (currentIndex + 1) (Z.of_nat (List.length videoLoadingMessages)) in
  at_index videoLoadingMessages nextIndex.

Definition rotateLoadingMessage (s : State) : State :=
  mkState (logoPrompt s) (animationPrompt s) (generatedLogo s)
    (generatedVideo s) (logoToAnimate s) (isGeneratingLogo s)
    (isGeneratingVideo s) (error s) (aspectRatio s) (hasApiKey s)
    (nextLoadingMessage (videoLoadingMessage s)).

(** ** Collaborators and the handler monad *)

(** A file picked in the file input; the controller only passes it on. *)
Inductive File : Type :=
| PickedFile (content : jstring).

(** The asynchronous calls the handlers await: the two calls of
    [./services/geminiService], [fileToBase64] of [./utils] and the two
    methods of [window.aistudio].  [base64Data] is an array read and may be
    [undefined]. *)
Inductive Call : Type :=
| generateLogoImage (prompt : jstring)
| generateLogoVideo (prompt : jstring) (base64Data : option jstring)
    (ratio : AspectRatio)
| fileToBase64 (file : File)
| hasSelectedApiKey
| openSelectKey.

Definition answer (c : Call) : Type :=
  match c with
  | generateLogoImage _ => jstring
  | generateLogoVideo _ _ _ => jstring
  | fileToBase64 _ => jstring
  | hasSelectedApiKey => bool
  | openSelectKey => unit
  end.

(** A thrown value, as far as a [catch (e: any)] block looks at it: its
    [message], when it has one. *)
Record Thrown : Type := mkThrown { message : option jstring }.

(** How an awaited promise settles. *)
Inductive Settled (A : Type) : Type :=
| Fulfilled (a : A)
| Rejected (e : Thrown).
Arguments Fulfilled {A} a.
Arguments Rejected {A} e.

(** An [async] function body.  [Ret] is normal completion (or [return]),
    [Throw] an exception on its way out, [Eff] a synchronous effect and
    [Await] a suspension until the promise of [c] settles. *)
Inductive Proc (A : Type) : Type :=
| Ret (a : A)
| Throw (e : Thrown)
| Eff (e : Effect) (k : Proc A)
| Await (c : Call) (k : Settled (answer c) -> Proc A).
Arguments Ret {A} a.
Arguments Throw {A} e.
Arguments Eff {A} e k.
Arguments Await {A} c k.

Fixpoint bind {A B : Type} (p : Proc A) (f : A -> Proc B) : Proc B :=
  match p with
  | Ret a => f a
  | Throw e => Throw e
  | Eff e k => Eff e (bind k f)
  | Await c k => Await c (fun r => bind (k r) f)
  end.

(** [try { p } catch (e) { h e }] *)
Fixpoint tryCatch {A : Type} (p : Proc A) (h : Thrown -> Proc A) : Proc A :=
  match p with
  | Ret a => Ret a
  | Throw e => h e
  | Eff e k => Eff e (tryCatch k h)
  | Await c k => Await c (fun r => tryCatch (k r) h)
  end.

(** [try { p } finally { f }]: [f] runs on completion, on [return] and on
    an exception, which then continues. *)
Fixpoint tryFinally {A : Type} (p : Proc A) (f : Proc unit) : Proc A :=
  match p with
  | Ret a => bind f (fun _ => Ret a)
  | Throw e => bind f (fun _ => Throw e)
  | Eff e k => Eff e (tryFinally k f)
  | Await c k => Await c (fun r => tryFinally (k r) f)
  end.

(** A setter call or [console.error] as a statement. *)
Definition call (e : Effect) : Proc unit := Eff e (Ret tt).

(** [await c]: the value of a fulfilled promise, the reason of a rejected
    one thrown. *)
Definition await (c : Call) : Proc (answer c) :=
  Await c (fun r =>
    match r with
    | Fulfilled a => Ret a
    | Rejected e => Throw e
    end).

Declare Scope proc_scope.
Delimit Scope proc_scope with proc.
Bind Scope proc_scope with Proc.
Notation "x <- p ;; q" := (bind p (fun x => q))
  (at level 61, p at next level, right associativity) : proc_scope.
Notation "p ;; q" := (bind p (fun _ => q))
  (at level 61, right associativity) : proc_scope.
Open Scope proc_scope.

(** ** The handlers of [App] *)

(** Each handler takes the state of the render whose closure it captured,
    reads from it exactly what the source reads, and calls setters. *)

(** [handleGenerateLogo] *)
Definition handleGenerateLogo (s : State) : Proc unit :=
  if negb (truthy (Some (trim (logoPrompt s)))) then
    call (setError (Some (lit "Please enter a description for your logo.")))
  else
    call (setIsGeneratingLogo true) ;;
    call (setError None) ;;
    call (setGeneratedLogo None) ;;
    call (setLogoToAnimate None) ;;
    call (setGeneratedVideo None) ;;
    tryFinally
      (tryCatch
         (imageB64 <- await (generateLogoImage (logoPrompt s)) ;;
          let imageUrl := lit "data:image/jpeg;base64," ++ imageB64 in
          call (setGeneratedLogo (Some imageUrl)) ;;
          call (setLogoToAnimate (Some imageUrl)))
         (fun e =>
          call (setError
                  (Some (or_else (message e) (lit "Failed to generate logo.")))) ;;
          call console_error))
      (call (setIsGeneratingLogo false)).

(** [logoToAnimate.split(',')[1]]: the part of a data URL after its first
    comma, [undefined] when it has none. *)
Definition base64Data (logo : option jstring) : option jstring :=
  match logo with
  | Some url => nth_error (split 44 url) 1
  | None => None
  end.

(** [handleGenerateVideo] *)
Definition handleGenerateVideo (s : State) : Proc unit :=
  if negb (truthy (logoToAnimate s)) then
    call (setError (Some (lit "Please generate or upload a logo to animate.")))
  else if negb (truthy (Some (trim (animationPrompt s)))) then
    call (setError (Some (lit "Please enter a prompt for the animation.")))
  else
    tryFinally
      (tryCatch
         (keySelected <- await hasSelectedApiKey ;;
          call (setHasApiKey keySelected) ;;
          if negb keySelected then
            call (setError
                    (Some (lit "Please select an API key to generate videos.")))
          else
            call (setIsGeneratingVideo true) ;;
            call (setError None) ;;
            call (setGeneratedVideo None) ;;
            videoUrl <- await (generateLogoVideo (animationPrompt s)
                                 (base64Data (logoToAnimate s))
                                 (aspectRatio s)) ;;
            call (setGeneratedVideo (Some videoUrl)))
         (fun e =>
          call console_error ;;
          let errorMessage :=
            or_else (message e)
              (lit "An unknown error occurred during video generation.") in
          if includes errorMessage (lit "Requested entity was not found") then
            call (setHasApiKey false) ;;
            call (setError
                    (Some (lit "API Key not found or invalid. Please re-select your API key.")))
          else
            call (setError (Some errorMessage))))
      (call (setIsGeneratingVideo false)).

(** [handleFileChange]; the argument is [event.target.files?.[0]]. *)
Definition handleFileChange (file : option File) : Proc unit :=
  match file with
  | Some f =>
      tryCatch
        (call (setError None) ;;
         base64 <- await (fileToBase64 f) ;;
         call (setLogoToAnimate (Some base64)) ;;
         call (setGeneratedVideo None))
        (fun err =>
         call (setError (Some (lit "Failed to read the uploaded file."))) ;;
         call console_error)
  | None => Ret tt
  end.

(** [checkApiKey], run once by the mount effect. *)
Definition checkApiKey : Proc unit :=
  tryCatch
    (keySelected <- await hasSelectedApiKey ;;
     call (setHasApiKey keySelected))
    (fun e => call console_error).

(** [handleSelectKey] *)
Definition handleSelectKey : Proc unit :=
  tryCatch
    (await openSelectKey ;;
     call (setHasApiKey true) ;;
     call (setError None))
    (fun e =>
     call console_error ;;
     call (setError
             (Some (lit "Failed to open API key selector. Please try again.")))).

(** ** One operation in isolation *)

(** The environment of a run: how each awaited call settles. *)
Definition Env : Type := forall c : Call, Settled (answer c).

(** What a run did, in order. *)
Inductive Event : Type :=
| Did (e : Effect)
| Awaited (c : Call).

(** The result of a run: the state it leaves, its trace, and how the
    promise of the [async] function settles. *)
Record Run (A : Type) : Type := mkRun {
  final : State;
  trace : list Event;
  outcome : Settled A
}.
Arguments mkRun {A} final trace outcome.
Arguments final {A} r.
Arguments trace {A} r.
Arguments outcome {A} r.

Fixpoint exec {A : Type} (env : Env) (p : Proc A) (s : State) : Run A :=
  match p with
  | Ret a => mkRun s [] (Fulfilled a)
  | Throw e => mkRun s [] (Rejected e)
  | Eff e k =>
      let r := exec env k (perform e s) in
      mkRun (final r) (Did e :: trace r) (outcome r)
  | Await c k =>
      let r := exec env (k (env c)) s in
      mkRun (final r) (Awaited c :: trace r) (outcome r)
  end.

(** The operations of the controller, as the specification names them:
    the handler of the current render, run to completion. *)
Definition requestLogo (env : Env) (s : State) : Run unit :=
  exec env (handleGenerateLogo s) s.

Definition requestAnimation (env : Env) (s : State) : Run unit :=
  exec env (handleGenerateVideo s) s.

Definition replaceAnimationInput (env : Env) (file : File) (s : State)
  : Run unit :=
  exec env (handleFileChange (Some file)) s.

Definition refreshCredentialStatus (env : Env) (s : State) : Run unit :=
  exec env checkApiKey s.

Definition selectCredential (env : Env) (s : State) : Run unit :=
  exec env handleSelectKey s.

(** Trace predicates. *)
Definition is_video_call (ev : Event) : bool :=
  match ev with
  | Awaited (generateLogoVideo _ _ _) => true
  | _ => false
  end.

Definition is_image_call (ev : Event) : bool :=
  match ev with
  | Awaited (generateLogoImage _) => true
  | _ => false
  end.

Definition raises_logo_busy (ev : Event) : bool :=
  match ev with
  | Did (setIsGeneratingLogo true) => true
  | _ => false
  end.

Definition raises_video_busy (ev : Event) : bool :=
  match ev with
  | Did (setIsGeneratingVideo true) => true
  | _ => false
  end.

(** ** The rendered controls *)

(** The DOM events the JSX of [App] binds a handler to. *)
Inductive UserEvent : Type :=
| ChangeLogoPrompt (v : jstring)
| ClickGenerateLogo
| ChangeFile (file : option File)
| ChangeAnimationPrompt (v : jstring)
| ClickAspectRatio (r : AspectRatio)
| ClickSelectKey
| ClickGenerateVideo.

(** The handler bound to each control, closed over the render [s]. *)
Definition handler (s : State) (ev : UserEvent) : Proc unit :=
  match ev with
  | ChangeLogoPrompt v => call (setLogoPrompt v)
  | ClickGenerateLogo => handleGenerateLogo s
  | ChangeFile file => handleFileChange file
  | ChangeAnimationPrompt v => call (setAnimationPrompt v)
  | ClickAspectRatio r => call (setAspectRatio r)
  | ClickSelectKey => handleSelectKey
  | ClickGenerateVideo => handleGenerateVideo s
  end.

(** Whether the control is rendered and not [disabled] in the render [s]:
    the whole second panel is rendered only under [logoToAnimate &&], the
    key button under [!hasApiKey], the animation button otherwise. *)
Definition enabled (s : State) (ev : UserEvent) : bool :=
  match ev with
  | ChangeLogoPrompt _ => negb (isGeneratingLogo s)
  | ClickGenerateLogo => negb (isGeneratingLogo s)
  | ChangeFile _ => truthy (logoToAnimate s)
  | ChangeAnimationPrompt _ =>
      truthy (logoToAnimate s) && negb (isGeneratingVideo s)
  | ClickAspectRatio _ =>
      truthy (logoToAnimate s) && negb (isGeneratingVideo s)
  | ClickSelectKey => truthy (logoToAnimate s) && negb (hasApiKey s)
  | ClickGenerateVideo =>
      truthy (logoToAnimate s) && hasApiKey s && negb (isGeneratingVideo s)
  end.

(** ** Sessions of operations served one at a time *)

Module Session.

(** A served event with the environment that settles its awaits.  A
    disabled control fires nothing. *)
Definition serve (s : State) (ev : UserEvent * Env) : State :=
  if enabled s (fst ev) then final (exec (snd ev) (handler s (fst ev)) s)
  else s.

(** A successful animation request, as a record kept beside the state
    (specification only): what the video was made from. *)
Record Provenance : Type := mkProvenance {
  source_logo : option jstring;
  source_prompt : jstring;
  source_ratio : AspectRatio;
  video : jstring
}.

(** The record of the run of [ev] from [s], when it is the animation
    handler, it reached the video call and the call was fulfilled. *)
Definition animated (s : State) (ev : UserEvent * Env)
  : option Provenance :=
  match fst ev with
  | ClickGenerateVideo =>
      if enabled s ClickGenerateVideo
         && existsb is_video_call
              (trace (exec (snd ev) (handleGenerateVideo s) s))
      then
        match snd ev (generateLogoVideo (animationPrompt s)
                        (base64Data (logoToAnimate s)) (aspectRatio s)) with
        | Fulfilled v =>
            Some (mkProvenance (logoToAnimate s) (animationPrompt s)
                    (aspectRatio s) v)
        | Rejected _ => None
        end
      else None
  | _ => None
  end.

(** The state and the last successful animation request after a list of
    events. *)
Fixpoint play (evs : list (UserEvent * Env))
  (s : State) (last : option Provenance) : State * option Provenance :=
  match evs with
  | [] => (s, last)
  | ev :: rest =>
      play rest (serve s ev)
        (match animated s ev with
         | Some p => Some p
         | None => last
         end)
  end.

(** [generatedVideo], when present, is the video of the last successful
    request and was made from the logo still selected. *)
Definition video_from_current_logo
  (sl : State * option Provenance) : Prop :=
  forall v, generatedVideo (fst sl) = Some v ->
    exists p, snd sl = Some p /\ video p = v /\
              source_logo p = logoToAnimate (fst sl).

(** The same, and made from the prompt still in the text area. *)
Definition video_from_current_pairing
  (sl : State * option Provenance) : Prop :=
  forall v, generatedVideo (fst sl) = Some v ->
    exists p, snd sl = Some p /\ video p = v /\
              source_logo p = logoToAnimate (fst sl) /\
              source_prompt p = animationPrompt (fst sl).

End Session.

(** ** The event loop *)

Module Live.

(** A handler run suspended at an [await]. *)
Record Parked : Type := mkParked {
  awaiting : Call;
  resume : Settled (answer awaiting) -> Proc unit
}.

(** Runs the synchronous part of a handler: up to its end or its next
    [await].  An exception that leaves the handler ends the run. *)
Fixpoint advance (p : Proc unit) (s : State) : State * option Parked :=
  match p with
  | Ret _ => (s, None)
  | Throw _ => (s, None)
  | Eff e k => advance k (perform e s)
  | Await c k => (s, Some (mkParked c k))
  end.

(** The mounted component with what the browser holds for it: the
    suspended runs, the interval timers of [window] as (id, delay in ms),
    and of the interval effect the [interval] variable of its last run
    and the [isGeneratingVideo] it last ran for. *)
Record App : Type := mkApp {
  state : State;
  parked : list Parked;
  timers : list (N * N);
  nextTimer : N;
  interval : option N;
  deps : bool;
  mounted : bool
}.

(** [clearInterval(id)] *)
Definition clearInterval (id : N) (ts : list (N * N)) : list (N * N) :=
  filter (fun t => negb (N.eqb (fst t) id)) ts.

(** The cleanup of the interval effect:
    [if (interval) clearInterval(interval)]. *)
Definition cleanup (a : App) : App :=
  match interval a with
  | Some id =>
      if N.eqb id 0 then a
      else mkApp (state a) (parked a) (clearInterval id (timers a))
             (nextTimer a) (interval a) (deps a) (mounted a)
  | None => a
  end.

(** The body of the interval effect, for the render of [state a]:
    [if (isGeneratingVideo) interval = setInterval(..., 4000)]. *)
Definition effect (a : App) : App :=
  if isGeneratingVideo (state a) then
    mkApp (state a) (parked a) ((nextTimer a, 4000%N) :: timers a)
      (N.succ (nextTimer a)) (Some (nextTimer a)) true (mounted a)
  else
    mkApp (state a) (parked a) (timers a) (nextTimer a) None false
      (mounted a).

(** After a render React re-runs an effect whose dependency changed:
    first the cleanup of its previous run, then its body.  The dependency
    list of the interval effect is [[isGeneratingVideo]]. *)
Definition commit (a : App) : App :=
  if Bool.eqb (isGeneratingVideo (state a)) (deps a) then a
  else effect (cleanup a).

(** What the event loop serves. *)
Inductive Input : Type :=
| User (ev : UserEvent)
| Settle (i : nat) (env : Env)
| Tick (id : N)
| Unmount.

Definition with_state (a : App) (s : State) (ps : list Parked) : App :=
  mkApp s ps (timers a) (nextTimer a) (interval a) (deps a) (mounted a).

Definition park (p : option Parked) : list Parked :=
  match p with
  | Some pk => [pk]
  | None => []
  end.

Fixpoint drop_nth {A : Type} (i : nat) (l : list A) : list A :=
  match l, i with
  | [], _ => []
  | _ :: r, O => r
  | x :: r, S j => x :: drop_nth j r
  end.

Definition active (id : N) (a : App) : bool :=
  existsb (fun t => N.eqb (fst t) id) (timers a).

(** One turn of the event loop.  A user event runs the handler of the
    current render up to its first [await]; [Settle i env] settles the
    promise the [i]-th suspended run waits for and runs it on; [Tick id]
    is the callback of an interval still set; [Unmount] discards the
    component, after which nothing is rendered or updated. *)
Definition step (a : App) (i : Input) : App :=
  if negb (mounted a) then a
  else
    match i with
    | User ev =>
        if enabled (state a) ev then
          let (s', pk) := advance (handler (state a) ev) (state a) in
          commit (with_state a s' (parked a ++ park pk))
        else a
    | Settle n env =>
        match nth_error (parked a) n with
        | Some p =>
            let (s', pk) :=
              advance (resume p (env (awaiting p))) (state a) in
            commit (with_state a s' (drop_nth n (parked a) ++ park pk))
        | None => a
        end
    | Tick id =>
        if active id a then
          with_state a (rotateLoadingMessage (state a)) (parked a)
        else a
    | Unmount =>
        let a' := cleanup a in
        mkApp (state a') (parked a') (timers a') (nextTimer a')
          (interval a') (deps a') false
    end.

(** The first render: the interval effect runs for the initial state and
    the mount effect starts [checkApiKey]. *)
Definition mount : App :=
  let (s, pk) := advance checkApiKey initialState in
  effect (mkApp s (park pk) [] 1%N None false true).

Definition run (a : App) (inputs : list Input) : App :=
  fold_left step inputs a.

(** The position of the shown message in [videoLoadingMessages]. *)
Definition messageIndex (a : App) : Z :=
  match videoLoadingMessage (state a) with
  | Some m => indexOf videoLoadingMessages m
  | None => (-1)%Z
  end.

End Live.

(** ** Guards, calls and sample collaborators *)

(** The guards of the two generation handlers, as the source tests them. *)
Definition logo_input_valid (s : State) : Prop :=
  trim (logoPrompt s) <> [].

Definition animation_input_valid (s : State) : Prop :=
  truthy (logoToAnimate s) = true /\ trim (animationPrompt s) <> [].

(** The video call the animation handler dispatches from the render [s]. *)
Definition videoCall (s : State) : Call :=
  generateLogoVideo (animationPrompt s) (base64Data (logoToAnimate s))
    (aspectRatio s).

(** The message the [catch] block of [handleGenerateVideo] starts from. *)
Definition videoErrorMessage (e : Thrown) : jstring :=
  or_else (message e)
    (lit "An unknown error occurred during video generation.").

(** The state in which requestAnimation awaits the video call. *)
Definition dispatched (s : State) : State :=
  perform (setGeneratedVideo None)
    (perform (setError None)
       (perform (setIsGeneratingVideo true)
          (perform (setHasApiKey true) s))).

(** An environment from the way each collaborator settles. *)
Definition answering (image video encoded : Settled jstring)
  (key : Settled bool) (selector : Settled unit) : Env :=
  fun c =>
    match c as c0 return Settled (answer c0) with
    | generateLogoImage _ => image
    | generateLogoVideo _ _ _ => video
    | fileToBase64 _ => encoded
    | hasSelectedApiKey => key
    | openSelectKey => selector
    end.

(** Collaborators that all succeed, with a selected key. *)
Definition obliging : Env :=
  answering (Fulfilled (lit "AAAA")) (Fulfilled (lit "blob:video-1"))
    (Fulfilled (lit "data:image/png;base64,BBBB")) (Fulfilled true)
    (Fulfilled tt).

(** The same collaborators once the key has been unselected. *)
Definition keyless : Env :=
  answering (Fulfilled (lit "AAAA")) (Fulfilled (lit "blob:video-1"))
    (Fulfilled (lit "data:image/png;base64,BBBB")) (Fulfilled false)
    (Fulfilled tt).

(** The video call fails the way the API does for a key it does not know. *)
Definition entityNotFound : Env :=
  answering (Fulfilled (lit "AAAA"))
    (Rejected (mkThrown (Some (lit "404: Requested entity was not found."))))
    (Fulfilled (lit "data:image/png;base64,BBBB")) (Fulfilled true)
    (Fulfilled tt).

(** [window.aistudio] throws: plainly, or with the signature of the API. *)
Definition providerDown : Env :=
  answering (Fulfilled (lit "AAAA")) (Fulfilled (lit "blob:video-1"))
    (Fulfilled (lit "data:image/png;base64,BBBB"))
    (Rejected (mkThrown (Some (lit "aistudio is not available"))))
    (Fulfilled tt).

Definition providerGone : Env :=
  answering (Fulfilled (lit "AAAA")) (Fulfilled (lit "blob:video-1"))
    (Fulfilled (lit "data:image/png;base64,BBBB"))
    (Rejected (mkThrown (Some (lit "Requested entity was not found"))))
    (Fulfilled tt).

(** The picked file cannot be read. *)
Definition unreadable : Env :=
  answering (Fulfilled (lit "AAAA")) (Fulfilled (lit "blob:video-1"))
    (Rejected (mkThrown None)) (Fulfilled true) (Fulfilled tt).

(** A render with a logo ready to animate and a key believed selected. *)
Definition readyState : State :=
  mkState (lit "red circle") (lit "spin")
    (Some (lit "data:image/jpeg;base64,AAAA")) None
    (Some (lit "data:image/jpeg;base64,AAAA")) false false None Ratio_9_16
    true (at_index videoLoadingMessages 0).

(** A render whose logo prompt is white space only, after an earlier
    generation. *)
Definition blankPromptState : State :=
  mkState [32; 9; 160; 10]%N (lit "spin")
    (Some (lit "data:image/jpeg;base64,AAAA")) (Some (lit "blob:video-0"))
    (Some (lit "data:image/jpeg;base64,AAAA")) false false None Ratio_16_9
    true (at_index videoLoadingMessages 0).

(** A render that still shows an old video and an old error. *)
Definition staleState : State :=
  mkState (lit "red circle") (lit "spin")
    (Some (lit "data:image/jpeg;base64,ZZZZ")) (Some (lit "blob:video-0"))
    (Some (lit "data:image/png;base64,BBBB")) false false
    (Some (lit "Failed to generate logo.")) Ratio_16_9 true
    (at_index videoLoadingMessages 0).

(** A session: a logo is generated, a key selected, the logo animated, and
    then the animation prompt is edited. *)
Definition editAfterAnimation : list (UserEvent * Env) :=
  [ (ClickGenerateLogo, obliging);
    (ClickSelectKey, obliging);
    (ClickGenerateVideo, obliging);
    (ChangeAnimationPrompt (lit "The logo zooms in with a glitch effect."),
     obliging) ].

(** The same session before the edit. *)
Definition animatedOnce : list (UserEvent * Env) :=
  firstn 3 editAfterAnimation.

Import Session.
Import Live.

(** What the interval effect maintains: while the component is mounted
    and [isGeneratingVideo] is set, exactly one interval is set, with a
    delay of 4000 ms, and [interval] holds its id; otherwise none is. *)
Definition timer_follows_flag (a : App) : Prop :=
  (0 < nextTimer a)%N /\
  if mounted a then
    deps a = isGeneratingVideo (state a) /\
    if isGeneratingVideo (state a) then
      exists id, interval a = Some id /\ timers a = [(id, 4000%N)] /\
                 (0 < id)%N
    else interval a = None /\ timers a = []
  else timers a = [].

(** The shown message is one of the list. *)
Definition message_listed (a : App) : Prop :=
  (0 <= messageIndex a < 6)%Z /\
  videoLoadingMessage (state a) =
    at_index videoLoadingMessages (messageIndex a).

(** "The rotation starts at the first message when generation begins", for
    the turn [i] of the event loop taken from [a]. *)
Definition starts_at_first_message (a : App) (i : Input) : Prop :=
  isGeneratingVideo (state a) = false ->
  isGeneratingVideo (state (step a i)) = true ->
  videoLoadingMessage (state (step a i)) = at_index videoLoadingMessages 0.

(** A first animation, from the mount to the arrival of the video, during
    which the interval fires once. *)
Definition firstAnimation : list Input :=
  [ Settle 0 obliging;
    User ClickGenerateLogo; Settle 0 obliging;
    User ClickGenerateVideo; Settle 0 obliging;
    Tick 1;
    Settle 0 obliging ].

(** The first animation up to the moment the video call is pending. *)
Definition animationPending : list Input := firstn 5 firstAnimation.

(** The component after the first animation, the animation button clicked
    again and the key re-check pending. *)
Definition beforeSecondAnimation : App :=
  run mount (firstAnimation ++ [User ClickGenerateVideo]).

(** An upload served while the video call is pending: the file is encoded
    first, the video arrives afterwards. *)
Definition uploadDuringAnimation : list Input :=
  [ Settle 0 obliging;
    User ClickGenerateLogo; Settle 0 obliging;
    User ClickGenerateVideo; Settle 0 obliging;
    User (ChangeFile (Some (PickedFile (lit "other logo"))));
    Settle 1 obliging;
    Settle 0 obliging ].

(** ** Runs in flight *)

(** [p] performs only effects of [P] and awaits only calls of [Q], however
    the promises it awaits settle. *)
Fixpoint confined (P : Effect -> bool) (Q : Call -> bool) (p : Proc unit)
  : Prop :=
  match p with
  | Ret _ => True
  | Throw _ => True
  | Eff e k => P e = true /\ confined P Q k
  | Await c k => Q c = true /\ forall r, confined P Q (k r)
  end.

(** The setters of the logo stage that only [handleGenerateLogo] calls. *)
Definition spares_logo_stage (e : Effect) : bool :=
  match e with
  | setIsGeneratingLogo _ => false
  | setGeneratedLogo _ => false
  | _ => true
  end.

Definition is_image_request (c : Call) : bool :=
  match c with
  | generateLogoImage _ => true
  | _ => false
  end.

Definition not_image_request (c : Call) : bool := negb (is_image_request c).

(** The suspended runs of [handleGenerateLogo]. *)
Definition imageRequests (ps : list Parked) : list Parked :=
  filter (fun pk => is_image_request (awaiting pk)) ps.

(** A suspended run of [handleGenerateLogo]: once its call settles it ends,
    with [isGeneratingLogo] false. *)
Definition image_run (pk : Parked) : Prop :=
  is_image_request (awaiting pk) = true /\
  forall r s,
    snd (advance (resume pk r) s) = None /\
    isGeneratingLogo (fst (advance (resume pk r) s)) = false.

(** A suspended run of another handler: it leaves the logo stage alone. *)
Definition other_run (pk : Parked) : Prop :=
  is_image_request (awaiting pk) = false /\
  forall r, confined spares_logo_stage not_image_request (resume pk r).

(** What the disabled button maintains: one image request is in flight
    while [isGeneratingLogo] is set and none otherwise, and no logo is
    stored while one is being generated. *)
Definition one_logo_request (a : App) : Prop :=
  Forall (fun pk => image_run pk \/ other_run pk) (parked a) /\
  length (imageRequests (parked a)) =
    (if isGeneratingLogo (state a) then 1 else 0)%nat /\
  (isGeneratingLogo (state a) = true -> generatedLogo (state a) = None).

(** The component once the key check of the mount has settled and a logo
    has been generated. *)
Definition logoReady : App :=
  run mount [Settle 0 obliging; User ClickGenerateLogo; Settle 0 obliging].

(** ** What [App] renders *)

(** The conditionally rendered parts of the JSX of [App]: whether each one
    is in the tree for the state of the render. *)
Record View : Type := mkView {
  errorBanner : bool;
  logoSpinner : bool;
  logoImage : bool;
  logoPlaceholder : bool;
  animationHint : bool;
  animationPanel : bool;
  keyPrompt : bool;
  animateButton : bool;
  videoSpinner : bool;
  videoPlayer : bool;
  videoPlaceholder : bool
}.

Definition render (s : State) : View :=
  let panel := truthy (logoToAnimate s) in
  {| errorBanner := truthy (error s);
     logoSpinner := isGeneratingLogo s;
     logoImage := negb (isGeneratingLogo s) && truthy (generatedLogo s);
     logoPlaceholder :=
       negb (isGeneratingLogo s) && negb (truthy (generatedLogo s));
     animationHint := negb (truthy (logoToAnimate s));
     animationPanel := panel;
     keyPrompt := panel && negb (hasApiKey s);
     animateButton := panel && hasApiKey s;
     videoSpinner := panel && isGeneratingVideo s;
     videoPlayer :=
       panel && (negb (isGeneratingVideo s) && truthy (generatedVideo s));
     videoPlaceholder :=
       panel &&
       (negb (isGeneratingVideo s) && negb (truthy (generatedVideo s))) |}.

(** Exactly one of three parts is rendered. *)
Definition one_of (a b c : bool) : bool :=
  match a, b, c with
  | true, false, false => true
  | false, true, false => true
  | false, false, true => true
  | _, _, _ => false
  end.

(** The part of the view a control lives in. *)
Definition rendered (s : State) (ev : UserEvent) : bool :=
  match ev with
  | ChangeLogoPrompt _ => true
  | ClickGenerateLogo => true
  | ChangeFile _ => animationPanel (render s)
  | ChangeAnimationPrompt _ => animationPanel (render s)
  | ClickAspectRatio _ => animationPanel (render s)
  | ClickSelectKey => keyPrompt (render s)
  | ClickGenerateVideo => animateButton (render s)
  end.

(** The setters of what the user types or picks. *)
Definition spares_user_input (e : Effect) : bool :=
  match e with
  | setLogoPrompt _ => false
  | setAnimationPrompt _ => false
  | setAspectRatio _ => false
  | _ => true
  end.

Definition any_call (c : Call) : bool := true.

(** The image call fails without a message. *)
Definition imageFails : Env :=
  answering (Rejected (mkThrown None)) (Fulfilled (lit "blob:video-1"))
    (Fulfilled (lit "data:image/png;base64,BBBB")) (Fulfilled true)
    (Fulfilled tt).

(** A render whose animation input is not a data URL. *)
Definition rawLogoState : State :=
  mkState (lit "red circle") (lit "spin") None None (Some (lit "AAAA")) false
    false None Ratio_16_9 true (at_index videoLoadingMessages 0).


(** ** Segments of a run *)

(** The next synchronous segment of a suspended run: the state and the
    suspension it leaves when the promise it waits for settles, by [env],
    while the state is [s']. *)
Definition settle_in (env : Env) (pk : option Parked) (s' : State)
  : State * option Parked :=
  match pk with
  | Some p => advance (resume p (env (awaiting p))) s'
  | None => (s', None)
  end.

(** The state in which requestLogo awaits the image call. *)
Definition logoDispatched (s : State) : State :=
  perform (setGeneratedVideo None)
    (perform (setLogoToAnimate None)
       (perform (setGeneratedLogo None)
          (perform (setError None)
             (perform (setIsGeneratingLogo true) s)))).

(** A render with valid inputs while a video is being generated: the logo
    button is enabled. *)
Definition videoBusyState : State :=
  mkState (lit "red circle") (lit "spin")
    (Some (lit "data:image/jpeg;base64,AAAA")) None
    (Some (lit "data:image/jpeg;base64,AAAA")) false true None Ratio_9_16
    true (at_index videoLoadingMessages 0).

(** A render with a logo ready to animate and no key selected yet. *)
Definition unkeyedState : State :=
  mkState (lit "red circle") (lit "spin")
    (Some (lit "data:image/jpeg;base64,AAAA")) None
    (Some (lit "data:image/jpeg;base64,AAAA")) false false None Ratio_9_16
    false (at_index videoLoadingMessages 0).

(** A logo is generated and animated; while the video call is pending the
    logo button, still enabled, is clicked again. *)
Definition logoDuringAnimation : list Input :=
  [ Settle 0 obliging;
    User ClickGenerateLogo; Settle 0 obliging;
    User ClickGenerateVideo; Settle 0 obliging;
    User ClickGenerateLogo ].

(** A logo is generated and animated; while the video call is pending
    another file is picked. *)
Definition fileDuringAnimation : list Input :=
  [ Settle 0 obliging;
    User ClickGenerateLogo; Settle 0 obliging;
    User ClickGenerateVideo; Settle 0 obliging;
    User (ChangeFile (Some (PickedFile (lit "other logo")))) ].

(** * Properties *)

Arguments lit : simpl never.

Ltac unfold_ops :=
  unfold requestLogo, requestAnimation, replaceAnimationInput,
    refreshCredentialStatus, selectCredential, handleGenerateLogo,
    handleGenerateVideo, handleFileChange, checkApiKey, handleSelectKey,
    videoCall, videoErrorMessage in *.

(** Enters the guarded part of a generation handler. *)
Ltac pass_guards :=
  repeat match goal with
  | H : logo_input_valid _ |- _ => unfold logo_input_valid in H
  | H : animation_input_valid _ |- _ => destruct H as [? ?]
  | H : truthy (logoToAnimate ?s) = true |- _ => rewrite H in *; clear H
  | H : trim ?p <> [] |- _ =>
      destruct (trim p) eqn:?; [congruence | clear H]
  end.

Ltac settle_with H := cbn; rewrite H; cbn.

(** ** Strings *)

Lemma trimStart_blank (p : jstring) :
  trimStart p = [] <-> forallb is_white_space p = true.
Proof.
  induction p as [|c r IH]; cbn.
  - tauto.
  - destruct (is_white_space c); cbn.
    + exact IH.
    + split; discriminate.
Qed.

Lemma trimStart_head (p : jstring) (c : N) (r : jstring) :
  trimStart p = c :: r -> is_white_space c = false.
Proof.
  induction p as [|d q IH]; cbn.
  - discriminate.
  - destruct (is_white_space d) eqn:E.
    + exact IH.
    + intros H. injection H as -> _. exact E.
Qed.

Lemma forallb_rev (f : N -> bool) (l : jstring) :
  forallb f (rev l) = forallb f l.
Proof.
  induction l as [|x l IH]; cbn.
  - reflexivity.
  - rewrite forallb_app, IH. cbn. rewrite andb_true_r. apply andb_comm.
Qed.

(** A prompt is empty after trimming exactly when it is blank: empty or
    white space only. *)
Lemma trim_blank (p : jstring) :
  trim p = [] <-> forallb is_white_space p = true.
Proof.
  unfold trim, trimEnd. split.
  - intros H.
    assert (H1 : trimStart (rev (trimStart p)) = []).
    { apply (f_equal (@rev N)) in H. rewrite rev_involutive in H. exact H. }
    apply trimStart_blank in H1. rewrite forallb_rev in H1.
    destruct (trimStart p) as [|c r] eqn:E.
    + apply trimStart_blank. exact E.
    + apply trimStart_head in E. cbn in H1. rewrite E in H1. discriminate.
  - intros H. apply trimStart_blank in H. rewrite H. reflexivity.
Qed.

(** ** Runs of one operation *)

Lemma requestLogo_blank (env : Env) (s : State) :
  trim (logoPrompt s) = [] ->
  requestLogo env s =
  mkRun
    (perform
       (setError (Some (lit "Please enter a description for your logo."))) s)
    [Did (setError (Some (lit "Please enter a description for your logo.")))]
    (Fulfilled tt).
Proof. intros H. unfold_ops. rewrite H. reflexivity. Qed.

(** [finally] is a guaranteed release: whatever the body does, however its
    awaits settle and whether it returns or throws, the effect of the
    [finally] block is the last one performed. *)
Lemma finally_runs_last {A : Type} (env : Env) (p : Proc A) (e : Effect)
  (s : State) :
  final (exec env (tryFinally p (call e)) s) =
    perform e (final (exec env p s)) /\
  trace (exec env (tryFinally p (call e)) s) =
    trace (exec env p s) ++ [Did e] /\
  outcome (exec env (tryFinally p (call e)) s) = outcome (exec env p s).
Proof.
  revert s. induction p as [a | x | x k IH | c k IH]; intros s; cbn.
  - repeat split.
  - repeat split.
  - destruct (IH (perform x s)) as (Hf & Ht & Ho).
    rewrite Hf, Ht, Ho. repeat split.
  - destruct (IH (env c) s) as (Hf & Ht & Ho).
    rewrite Hf, Ht, Ho. repeat split.
Qed.

Lemma requestLogo_releases (env : Env) (s : State) :
  logo_input_valid s ->
  isGeneratingLogo (final (requestLogo env s)) = false.
Proof.
  intros H. unfold_ops. pass_guards.
  cbn [negb truthy bind call exec final].
  rewrite (proj1 (finally_runs_last env _ _ _)). reflexivity.
Qed.

Lemma requestAnimation_invalid (env : Env) (s : State) :
  ~ animation_input_valid s ->
  exists m,
    requestAnimation env s =
    mkRun (perform (setError (Some m)) s) [Did (setError (Some m))]
      (Fulfilled tt).
Proof.
  intros H. unfold animation_input_valid in H. unfold_ops.
  destruct (truthy (logoToAnimate s)); cbn.
  - destruct (trim (animationPrompt s)); cbn.
    + eexists; reflexivity.
    + exfalso. apply H. split; [reflexivity | discriminate].
  - eexists; reflexivity.
Qed.

Lemma animation_input_valid_dec (s : State) :
  animation_input_valid s \/ ~ animation_input_valid s.
Proof.
  unfold animation_input_valid.
  destruct (truthy (logoToAnimate s)); [| right; intros [? _]; discriminate].
  destruct (trim (animationPrompt s)).
  - right; intros [_ ?]; congruence.
  - left; split; [reflexivity | discriminate].
Qed.

Lemma requestAnimation_releases (env : Env) (s : State) :
  animation_input_valid s ->
  isGeneratingVideo (final (requestAnimation env s)) = false.
Proof.
  intros H. unfold_ops. pass_guards.
  cbn [negb truthy].
  rewrite (proj1 (finally_runs_last env _ _ _)). reflexivity.
Qed.

(** The run of requestAnimation when the provider reports no key. *)
Lemma requestAnimation_keyless (env : Env) (s : State) :
  animation_input_valid s ->
  env hasSelectedApiKey = Fulfilled false ->
  requestAnimation env s =
  mkRun
    (perform (setIsGeneratingVideo false)
       (perform
          (setError (Some (lit "Please select an API key to generate videos.")))
          (perform (setHasApiKey false) s)))
    [ Awaited hasSelectedApiKey;
      Did (setHasApiKey false);
      Did (setError
             (Some (lit "Please select an API key to generate videos.")));
      Did (setIsGeneratingVideo false) ]
    (Fulfilled tt).
Proof.
  intros H Hkey. unfold_ops. pass_guards. settle_with Hkey. reflexivity.
Qed.

(** The run of requestAnimation whose video call is fulfilled. *)
Lemma requestAnimation_fulfilled (env : Env) (s : State) (videoUrl : jstring) :
  animation_input_valid s ->
  env hasSelectedApiKey = Fulfilled true ->
  env (videoCall s) = Fulfilled videoUrl ->
  requestAnimation env s =
  mkRun
    (perform (setIsGeneratingVideo false)
       (perform (setGeneratedVideo (Some videoUrl)) (dispatched s)))
    [ Awaited hasSelectedApiKey;
      Did (setHasApiKey true);
      Did (setIsGeneratingVideo true);
      Did (setError None);
      Did (setGeneratedVideo None);
      Awaited (videoCall s);
      Did (setGeneratedVideo (Some videoUrl));
      Did (setIsGeneratingVideo false) ]
    (Fulfilled tt).
Proof.
  intros H Hkey Hvideo. unfold_ops. pass_guards.
  settle_with Hkey. settle_with Hvideo. reflexivity.
Qed.

(** The run of requestAnimation whose video call is rejected with [e]. *)
Lemma requestAnimation_rejected (env : Env) (s : State) (e : Thrown) :
  animation_input_valid s ->
  env hasSelectedApiKey = Fulfilled true ->
  env (videoCall s) = Rejected e ->
  final (requestAnimation env s) =
  perform (setIsGeneratingVideo false)
    (if includes (videoErrorMessage e) (lit "Requested entity was not found")
     then
       perform
         (setError
            (Some (lit "API Key not found or invalid. Please re-select your API key.")))
         (perform (setHasApiKey false) (dispatched s))
     else
       perform (setError (Some (videoErrorMessage e))) (dispatched s)).
Proof.
  intros H Hkey Hvideo. unfold_ops. pass_guards.
  settle_with Hkey. settle_with Hvideo.
  destruct (includes _ _); reflexivity.
Qed.

Lemma requestAnimation_rejected_clears (env : Env) (s : State) (e : Thrown) :
  animation_input_valid s ->
  env hasSelectedApiKey = Fulfilled true ->
  env (videoCall s) = Rejected e ->
  generatedVideo (final (requestAnimation env s)) = None.
Proof.
  intros H Hkey Hvideo.
  rewrite (requestAnimation_rejected env s e H Hkey Hvideo).
  destruct (includes _ _); reflexivity.
Qed.
(** The run of requestAnimation whose credential query throws [e]. *)
Lemma requestAnimation_provider_throws (env : Env) (s : State) (e : Thrown) :
  animation_input_valid s ->
  env hasSelectedApiKey = Rejected e ->
  requestAnimation env s =
  if includes (videoErrorMessage e) (lit "Requested entity was not found")
  then
    mkRun
      (perform (setIsGeneratingVideo false)
         (perform
            (setError
               (Some (lit "API Key not found or invalid. Please re-select your API key.")))
            (perform (setHasApiKey false) s)))
      [ Awaited hasSelectedApiKey; Did console_error;
        Did (setHasApiKey false);
        Did (setError
               (Some (lit "API Key not found or invalid. Please re-select your API key.")));
        Did (setIsGeneratingVideo false) ]
      (Fulfilled tt)
  else
    mkRun
      (perform (setIsGeneratingVideo false)
         (perform (setError (Some (videoErrorMessage e))) s))
      [ Awaited hasSelectedApiKey; Did console_error;
        Did (setError (Some (videoErrorMessage e)));
        Did (setIsGeneratingVideo false) ]
      (Fulfilled tt).
Proof.
  intros H Hkey. unfold_ops. pass_guards. settle_with Hkey.
  destruct (includes _ _); reflexivity.
Qed.

(** refreshCredentialStatus stores the provider's answer; when the query
    throws it only logs. *)
Lemma refreshCredentialStatus_run (env : Env) (s : State) :
  final (refreshCredentialStatus env s) =
  match env hasSelectedApiKey with
  | Fulfilled keySelected => perform (setHasApiKey keySelected) s
  | Rejected _ => s
  end.
Proof.
  unfold_ops. cbn. destruct (env hasSelectedApiKey); reflexivity.
Qed.

(** selectCredential sets [hasApiKey] without asking the provider again
    and clears the error; when the selector fails, it stores a fixed
    message and leaves [hasApiKey] alone. *)
Lemma selectCredential_run (env : Env) (s : State) :
  final (selectCredential env s) =
  match env openSelectKey with
  | Fulfilled _ => perform (setError None) (perform (setHasApiKey true) s)
  | Rejected _ =>
      perform
        (setError
           (Some (lit "Failed to open API key selector. Please try again.")))
        s
  end.
Proof.
  unfold_ops. cbn. destruct (env openSelectKey); reflexivity.
Qed.

(** ** The segments of the handlers *)

(** The two segments of a requestLogo that passes validation: the dispatch,
    and, in whatever state the image call settles, the completion. *)
Lemma logo_segments (env : Env) (s : State) :
  logo_input_valid s ->
  fst (advance (handleGenerateLogo s) s) = logoDispatched s /\
  forall s',
    settle_in env (snd (advance (handleGenerateLogo s) s)) s' =
    (match env (generateLogoImage (logoPrompt s)) with
     | Fulfilled imageB64 =>
         perform (setIsGeneratingLogo false)
           (perform
              (setLogoToAnimate
                 (Some (lit "data:image/jpeg;base64," ++ imageB64)))
              (perform
                 (setGeneratedLogo
                    (Some (lit "data:image/jpeg;base64," ++ imageB64)))
                 s'))
     | Rejected e =>
         perform (setIsGeneratingLogo false)
           (perform
              (setError
                 (Some (or_else (message e) (lit "Failed to generate logo."))))
              s')
     end, None).
Proof.
  intros H. unfold handleGenerateLogo. pass_guards. cbn.
  split; [reflexivity |]. intros s'.
  destruct (env (generateLogoImage (logoPrompt s))); reflexivity.
Qed.

(** The two segments of a replaceAnimationInput. *)
Lemma file_segments (env : Env) (file : File) (s : State) :
  fst (advance (handleFileChange (Some file)) s) = perform (setError None) s /\
  forall s',
    settle_in env (snd (advance (handleFileChange (Some file)) s)) s' =
    (match env (fileToBase64 file) with
     | Fulfilled base64 =>
         perform (setGeneratedVideo None)
           (perform (setLogoToAnimate (Some base64)) s')
     | Rejected _ =>
         perform (setError (Some (lit "Failed to read the uploaded file.")))
           s'
     end, None).
Proof.
  unfold handleFileChange. cbn. split; [reflexivity |]. intros s'.
  destruct (env (fileToBase64 file)); reflexivity.
Qed.

(** The segments of a requestAnimation that passes validation: the click
    changes nothing; the key check, answered in any state; and, with a
    selected key, the completion in whatever state the video call
    settles. *)
Lemma animation_segments (env : Env) (s : State) :
  animation_input_valid s ->
  fst (advance (handleGenerateVideo s) s) = s /\
  forall s1,
    (forall e, env hasSelectedApiKey = Rejected e ->
       snd (settle_in env (snd (advance (handleGenerateVideo s) s)) s1)
         = None /\
       isGeneratingVideo
         (fst (settle_in env (snd (advance (handleGenerateVideo s) s)) s1))
         = false) /\
    (env hasSelectedApiKey = Fulfilled false ->
       snd (settle_in env (snd (advance (handleGenerateVideo s) s)) s1)
         = None /\
       isGeneratingVideo
         (fst (settle_in env (snd (advance (handleGenerateVideo s) s)) s1))
         = false) /\
    (env hasSelectedApiKey = Fulfilled true ->
       fst (settle_in env (snd (advance (handleGenerateVideo s) s)) s1)
         = dispatched s1 /\
       forall (env' : Env) (s2 : State),
         settle_in env'
           (snd (settle_in env (snd (advance (handleGenerateVideo s) s)) s1))
           s2 =
         (perform (setIsGeneratingVideo false)
            (match env' (videoCall s) with
             | Fulfilled videoUrl =>
                 perform (setGeneratedVideo (Some videoUrl)) s2
             | Rejected e =>
                 if includes (videoErrorMessage e)
                      (lit "Requested entity was not found")
                 then
                   perform
                     (setError
                        (Some (lit "API Key not found or invalid. Please re-select your API key.")))
                     (perform (setHasApiKey false) s2)
                 else perform (setError (Some (videoErrorMessage e))) s2
             end), None)).
Proof.
  intros H. unfold handleGenerateVideo, videoCall, videoErrorMessage.
  pass_guards. cbn. split; [reflexivity |]. intros s1.
  split; [| split].
  - intros e He. rewrite He. cbn. destruct (includes _ _); split; reflexivity.
  - intros He. rewrite He. cbn. split; reflexivity.
  - intros He. rewrite He. cbn. split; [reflexivity |]. intros env' s2. cbn.
    match goal with |- context [env' ?c] => destruct (env' c) as [v | e] end;
      cbn; [reflexivity |].
    destruct (includes _ _); reflexivity.
Qed.

(** C2: every run of requestLogo and of requestAnimation leaves its busy
    flag false when it completes, whatever the outcome.  A run that passes
    validation ends with the setter call of its [finally] block, whatever
    the flag was in the render and however the remote call or the
    credential provider settles; this holds of the completing segment in
    whatever state the awaited promise settles, so also when other events
    are served in between.  A run that fails validation is one synchronous
    segment that leaves the flag as it is, which is false, since the
    button that starts the run is disabled while its flag is set. *)
Theorem busy_flag_released (envL envV : Env) (s : State) :
  (logo_input_valid s ->
   isGeneratingLogo (final (requestLogo envL s)) = false /\
   last (trace (requestLogo envL s)) (Did console_error) =
     Did (setIsGeneratingLogo false) /\
   forall s',
     snd (settle_in envL (snd (advance (handleGenerateLogo s) s)) s') = None /\
     isGeneratingLogo
       (fst (settle_in envL (snd (advance (handleGenerateLogo s) s)) s'))
       = false) /\
  (animation_input_valid s ->
   isGeneratingVideo (final (requestAnimation envV s)) = false /\
   last (trace (requestAnimation envV s)) (Did console_error) =
     Did (setIsGeneratingVideo false) /\
   forall s1,
     match
       snd (settle_in envV (snd (advance (handleGenerateVideo s) s)) s1)
     with
     | None =>
         isGeneratingVideo
           (fst (settle_in envV (snd (advance (handleGenerateVideo s) s)) s1))
           = false
     | Some pk =>
         forall (env' : Env) (s2 : State),
           snd (settle_in env' (Some pk) s2) = None /\
           isGeneratingVideo (fst (settle_in env' (Some pk) s2)) = false
     end) /\
  (isGeneratingLogo s = false ->
   isGeneratingLogo (final (requestLogo envL s)) = false) /\
  (isGeneratingVideo s = false ->
   isGeneratingVideo (final (requestAnimation envV s)) = false).
Proof.
  split; [| split; [| split]].
  - intros H. split; [apply requestLogo_releases, H |]. split.
    + unfold_ops. pass_guards. cbn.
      destruct (envL (generateLogoImage (logoPrompt s))); reflexivity.
    + intros s'. destruct (logo_segments envL s H) as [_ Hc]. rewrite Hc.
      destruct (envL (generateLogoImage (logoPrompt s))); split; reflexivity.
  - intros H. split; [apply requestAnimation_releases, H |]. split.
    + pose proof H as H'. unfold_ops. pass_guards. cbn.
      destruct (envV hasSelectedApiKey) as [[|] | e]; cbn.
      * match goal with |- context [envV ?c] => destruct (envV c) end; cbn;
          [reflexivity | destruct (includes _ _); reflexivity].
      * reflexivity.
      * destruct (includes _ _); reflexivity.
    + intros s1. destruct (animation_segments envV s H) as [_ Hs].
      destruct (Hs s1) as (Hthrow & Hfalse & Htrue).
      destruct (envV hasSelectedApiKey) as [[|] | e] eqn:Hkey.
      * destruct (Htrue eq_refl) as [_ Hdone].
        destruct (snd (settle_in envV _ s1)) as [pk|] eqn:E.
        -- intros env' s2. rewrite (Hdone env' s2).
           split; reflexivity.
        -- exfalso.
           specialize (Hdone envV (perform (setIsGeneratingVideo true) s1)).
           apply (f_equal (fun x => isGeneratingVideo (fst x))) in Hdone.
           cbn in Hdone. discriminate.
      * destruct (Hfalse eq_refl) as [-> Hb]. exact Hb.
      * destruct (Hthrow e eq_refl) as [-> Hb]. exact Hb.
  - intros HL. destruct (trim (logoPrompt s)) eqn:E.
    + rewrite requestLogo_blank by exact E. exact HL.
    + apply requestLogo_releases. unfold logo_input_valid. congruence.
  - intros HV. destruct (animation_input_valid_dec s) as [H|H].
    + apply requestAnimation_releases, H.
    + destruct (requestAnimation_invalid envV s H) as [m ->]. exact HV.
Qed.

Lemma busy_flag_released_witness :
  enabled videoBusyState ClickGenerateLogo = true /\
  isGeneratingLogo (final (requestLogo imageFails videoBusyState)) = false /\
  last (trace (requestLogo imageFails videoBusyState)) (Did console_error) =
    Did (setIsGeneratingLogo false) /\
  isGeneratingVideo (final (requestAnimation entityNotFound readyState))
    = false /\
  last (trace (requestAnimation entityNotFound readyState))
    (Did console_error) = Did (setIsGeneratingVideo false).
Proof.
  assert (HL : logo_input_valid videoBusyState).
  { vm_compute; discriminate. }
  assert (HV : animation_input_valid readyState).
  { split; [reflexivity | vm_compute; discriminate]. }
  destruct (busy_flag_released imageFails entityNotFound videoBusyState)
    as (Hlogo & _).
  destruct (busy_flag_released imageFails entityNotFound readyState)
    as (_ & Hvideo & _).
  destruct (Hlogo HL) as (Hl1 & Hl2 & _).
  destruct (Hvideo HV) as (Hv1 & Hv2 & _).
  split; [reflexivity |].
  split; [exact Hl1 |]. split; [exact Hl2 |].
  split; [exact Hv1 | exact Hv2].
Defined.

(** C3: when the credential provider, queried by requestAnimation before
    dispatch, reports that no key is selected, the run makes no remote video
    call and never raises the busy flag, whatever [hasApiKey] was in the
    render; with a valid input the run is exactly the query, the update of
    [hasApiKey], the CredentialMissing message and the [finally] block. *)
Theorem no_video_call_without_credential (env : Env) (s : State) :
  env hasSelectedApiKey = Fulfilled false ->
  existsb is_video_call (trace (requestAnimation env s)) = false /\
  existsb raises_video_busy (trace (requestAnimation env s)) = false /\
  (animation_input_valid s ->
   trace (requestAnimation env s) =
     [ Awaited hasSelectedApiKey;
       Did (setHasApiKey false);
       Did (setError
              (Some (lit "Please select an API key to generate videos.")));
       Did (setIsGeneratingVideo false) ] /\
   error (final (requestAnimation env s)) =
     Some (lit "Please select an API key to generate videos.") /\
   isGeneratingVideo (final (requestAnimation env s)) = false /\
   generatedVideo (final (requestAnimation env s)) = generatedVideo s).
Proof.
  intros Hkey.
  destruct (animation_input_valid_dec s) as [H|H].
  - rewrite (requestAnimation_keyless env s H Hkey). cbn. repeat split.
  - destruct (requestAnimation_invalid env s H) as [m ->]. cbn.
    repeat split; try reflexivity; contradiction.
Qed.

Lemma no_video_call_without_credential_witness :
  hasApiKey readyState = true /\
  existsb is_video_call (trace (requestAnimation keyless readyState)) = false /\
  existsb raises_video_busy (trace (requestAnimation keyless readyState))
    = false.
Proof.
  destruct (@no_video_call_without_credential keyless readyState eq_refl)
    as (Hcall & Hbusy & _).
  split; [reflexivity | split; assumption].
Defined.

(** C4: a remote video failure whose message contains the entity-not-found
    signature leaves [hasApiKey] false and the error message that asks to
    re-select the key, even though the provider had just reported a
    selected key; any other message is stored as it is, and a missing or
    empty one is replaced by the generic fallback.  The busy flag is
    cleared in every case. *)
Theorem video_failure_classified (env : Env) (s : State) (e : Thrown) :
  animation_input_valid s ->
  env hasSelectedApiKey = Fulfilled true ->
  env (videoCall s) = Rejected e ->
  (forall m, message e = Some m ->
     includes m (lit "Requested entity was not found") = true ->
     hasApiKey (final (requestAnimation env s)) = false /\
     error (final (requestAnimation env s)) =
       Some (lit "API Key not found or invalid. Please re-select your API key.")) /\
  (forall m, message e = Some m -> m <> [] ->
     includes m (lit "Requested entity was not found") = false ->
     error (final (requestAnimation env s)) = Some m /\
     hasApiKey (final (requestAnimation env s)) = true) /\
  (message e = None \/ message e = Some [] ->
     error (final (requestAnimation env s)) =
       Some (lit "An unknown error occurred during video generation.") /\
     hasApiKey (final (requestAnimation env s)) = true) /\
  isGeneratingVideo (final (requestAnimation env s)) = false.
Proof.
  intros H Hkey Hvideo.
  rewrite (requestAnimation_rejected env s e H Hkey Hvideo).
  unfold videoErrorMessage.
  split; [| split; [| split]].
  - intros m Hm Hsig. destruct m as [|c r]; [discriminate |].
    rewrite Hm. cbn [or_else]. rewrite Hsig. split; reflexivity.
  - intros m Hm Hne Hsig. destruct m as [|c r]; [congruence |].
    rewrite Hm. cbn [or_else]. rewrite Hsig. split; reflexivity.
  - intros [-> | ->]; split; reflexivity.
  - destruct (includes _ _); reflexivity.
Qed.

(** The re-selection message does instruct to re-select. *)
Example reselect_message_instructs :
  includes
    (lit "API Key not found or invalid. Please re-select your API key.")
    (lit "re-select") = true.
Proof. reflexivity. Qed.

Lemma video_failure_classified_witness :
  hasApiKey readyState = true /\
  hasApiKey (final (requestAnimation entityNotFound readyState)) = false /\
  error (final (requestAnimation entityNotFound readyState)) =
    Some (lit "API Key not found or invalid. Please re-select your API key.").
Proof.
  split; [reflexivity |].
  assert (Hvalid : animation_input_valid readyState).
  { split; [reflexivity | vm_compute; discriminate]. }
  assert (Hsig :
    includes (lit "404: Requested entity was not found.")
      (lit "Requested entity was not found") = true).
  { vm_compute; reflexivity. }
  exact (proj1
           (video_failure_classified entityNotFound readyState
              (mkThrown (Some (lit "404: Requested entity was not found.")))
              Hvalid eq_refl eq_refl)
           (lit "404: Requested entity was not found.") eq_refl Hsig).
Defined.

(** C5: for a prompt that is empty after trimming, requestLogo only stores
    the validation message in the error slot: every other field of the
    state is as before (in particular [generatedLogo] and
    [isGeneratingLogo]), no remote call is made and the busy flag is never
    raised. *)
Theorem blank_prompt_rejected (env : Env) (s : State) :
  trim (logoPrompt s) = [] ->
  final (requestLogo env s) =
    perform
      (setError (Some (lit "Please enter a description for your logo."))) s /\
  trace (requestLogo env s) =
    [Did (setError (Some (lit "Please enter a description for your logo.")))] /\
  existsb is_image_call (trace (requestLogo env s)) = false /\
  existsb raises_logo_busy (trace (requestLogo env s)) = false /\
  generatedLogo (final (requestLogo env s)) = generatedLogo s /\
  isGeneratingLogo (final (requestLogo env s)) = isGeneratingLogo s /\
  logoToAnimate (final (requestLogo env s)) = logoToAnimate s /\
  generatedVideo (final (requestLogo env s)) = generatedVideo s.
Proof.
  intros H. rewrite (requestLogo_blank env s H). cbn. repeat split.
Qed.

Lemma blank_prompt_rejected_witness :
  forallb is_white_space (logoPrompt blankPromptState) = true /\
  final (requestLogo obliging blankPromptState) =
    perform
      (setError (Some (lit "Please enter a description for your logo.")))
      blankPromptState.
Proof.
  split; [reflexivity |].
  assert (Hblank : trim (logoPrompt blankPromptState) = []).
  { vm_compute; reflexivity. }
  exact (proj1 (blank_prompt_rejected obliging blankPromptState Hblank)).
Defined.

(** C6, as the source has it.  A requestLogo whose image call is fulfilled
    stores the image, as a JPEG data URL, as both [generatedLogo] and
    [logoToAnimate] and clears the busy flag in its completing segment, in
    whatever state the image arrives.  [generatedVideo] and [error] are
    cleared by the dispatch; when nothing else is served while the call is
    pending they are clear at completion too. *)
Theorem logo_stored_on_success (env : Env) (s : State) (imageB64 : jstring) :
  logo_input_valid s ->
  env (generateLogoImage (logoPrompt s)) = Fulfilled imageB64 ->
  (forall s',
     settle_in env (snd (advance (handleGenerateLogo s) s)) s' =
     (perform (setIsGeneratingLogo false)
        (perform
           (setLogoToAnimate
              (Some (lit "data:image/jpeg;base64," ++ imageB64)))
           (perform
              (setGeneratedLogo
                 (Some (lit "data:image/jpeg;base64," ++ imageB64)))
              s')), None)) /\
  (generatedVideo (fst (advance (handleGenerateLogo s) s)) = None /\
   error (fst (advance (handleGenerateLogo s) s)) = None) /\
  (generatedLogo (final (requestLogo env s)) =
     Some (lit "data:image/jpeg;base64," ++ imageB64) /\
   logoToAnimate (final (requestLogo env s)) =
     generatedLogo (final (requestLogo env s)) /\
   generatedVideo (final (requestLogo env s)) = None /\
   error (final (requestLogo env s)) = None /\
   isGeneratingLogo (final (requestLogo env s)) = false).
Proof.
  intros H Himage. destruct (logo_segments env s H) as [Hd Hc].
  split; [intros s'; rewrite Hc, Himage; reflexivity |].
  split; [rewrite Hd; split; reflexivity |].
  clear Hd Hc. unfold_ops. pass_guards. settle_with Himage. repeat split.
Qed.

Lemma logo_stored_on_success_witness :
  generatedLogo (final (requestLogo obliging staleState)) =
    Some (lit "data:image/jpeg;base64,AAAA") /\
  logoToAnimate (final (requestLogo obliging staleState)) =
    generatedLogo (final (requestLogo obliging staleState)) /\
  generatedVideo (final (requestLogo obliging staleState)) = None /\
  error (final (requestLogo obliging staleState)) = None /\
  isGeneratingLogo (final (requestLogo obliging staleState)) = false.
Proof.
  assert (Hvalid : logo_input_valid staleState).
  { vm_compute; discriminate. }
  exact (proj2 (proj2 (logo_stored_on_success obliging staleState
                         (lit "AAAA") Hvalid eq_refl))).
Defined.

(** C6 as the claim words it fails: the logo button stays enabled while a
    video call is pending.  When that call settles before the image
    arrives, the successful requestLogo completes beside the video the
    call stored, or beside the error it stored. *)
Lemma logo_success_beside_settled_video :
  map awaiting
    (parked (run mount (logoDuringAnimation ++ [Settle 0 obliging]))) =
    [generateLogoImage (logoPrompt initialState)] /\
  (generatedLogo
     (state (run mount
               (logoDuringAnimation ++ [Settle 0 obliging; Settle 0 obliging])))
     = Some (lit "data:image/jpeg;base64,AAAA") /\
   isGeneratingLogo
     (state (run mount
               (logoDuringAnimation ++ [Settle 0 obliging; Settle 0 obliging])))
     = false /\
   generatedVideo
     (state (run mount
               (logoDuringAnimation ++ [Settle 0 obliging; Settle 0 obliging])))
     = Some (lit "blob:video-1")) /\
  (generatedLogo
     (state (run mount
               (logoDuringAnimation ++
                [Settle 0 entityNotFound; Settle 0 obliging])))
     = Some (lit "data:image/jpeg;base64,AAAA") /\
   error
     (state (run mount
               (logoDuringAnimation ++
                [Settle 0 entityNotFound; Settle 0 obliging])))
     = Some (lit "API Key not found or invalid. Please re-select your API key.")).
Proof. vm_compute. repeat split. Qed.

(** C7, as the source has it.  A replaceAnimationInput whose file is
    encoded overwrites [logoToAnimate] with the encoding and clears
    [generatedVideo], whatever it was, in its completing segment, in
    whatever state the encoding arrives; when the file cannot be read the
    completing segment stores the fixed message.  [error] is cleared when
    the read starts; when nothing else is served while the read is pending
    it is clear at completion too. *)
Theorem animation_input_replaced (env : Env) (file : File) (s : State) :
  (forall base64, env (fileToBase64 file) = Fulfilled base64 ->
     forall s',
       settle_in env (snd (advance (handleFileChange (Some file)) s)) s' =
       (perform (setGeneratedVideo None)
          (perform (setLogoToAnimate (Some base64)) s'), None)) /\
  (forall e, env (fileToBase64 file) = Rejected e ->
     forall s',
       settle_in env (snd (advance (handleFileChange (Some file)) s)) s' =
       (perform (setError (Some (lit "Failed to read the uploaded file.")))
          s', None)) /\
  error (fst (advance (handleFileChange (Some file)) s)) = None /\
  (forall base64, env (fileToBase64 file) = Fulfilled base64 ->
     logoToAnimate (final (replaceAnimationInput env file s)) = Some base64 /\
     generatedVideo (final (replaceAnimationInput env file s)) = None /\
     error (final (replaceAnimationInput env file s)) = None) /\
  (forall e, env (fileToBase64 file) = Rejected e ->
     error (final (replaceAnimationInput env file s)) =
       Some (lit "Failed to read the uploaded file.") /\
     logoToAnimate (final (replaceAnimationInput env file s)) =
       logoToAnimate s /\
     generatedVideo (final (replaceAnimationInput env file s)) =
       generatedVideo s).
Proof.
  destruct (file_segments env file s) as [Hd Hc].
  split; [intros base64 Hb s'; rewrite Hc, Hb; reflexivity |].
  split; [intros e He s'; rewrite Hc, He; reflexivity |].
  split; [rewrite Hd; reflexivity |].
  clear Hd Hc. split.
  - intros base64 H. unfold_ops. settle_with H. repeat split.
  - intros e H. unfold_ops. settle_with H. repeat split.
Qed.

Lemma animation_input_replaced_witness :
  generatedVideo staleState = Some (lit "blob:video-0") /\
  (logoToAnimate
     (final (replaceAnimationInput obliging (PickedFile (lit "other logo"))
               staleState)) =
     Some (lit "data:image/png;base64,BBBB") /\
   generatedVideo
     (final (replaceAnimationInput obliging (PickedFile (lit "other logo"))
               staleState)) = None /\
   error
     (final (replaceAnimationInput obliging (PickedFile (lit "other logo"))
               staleState)) = None) /\
  error
    (final (replaceAnimationInput unreadable (PickedFile (lit "other logo"))
              staleState)) =
    Some (lit "Failed to read the uploaded file.").
Proof.
  split; [reflexivity |]. split.
  - exact (proj1
             (proj2 (proj2 (proj2
                (animation_input_replaced obliging
                   (PickedFile (lit "other logo")) staleState))))
             (lit "data:image/png;base64,BBBB") eq_refl).
  - exact (proj1
             (proj2
                (proj2 (proj2 (proj2
                   (animation_input_replaced unreadable
                      (PickedFile (lit "other logo")) staleState))))
                (mkThrown None) eq_refl)).
Defined.

(** C7 as the claim words it fails: the file input stays enabled while a
    video call is pending.  When that call is rejected while the file is
    read, the successful replaceAnimationInput completes with the error of
    the video call in the error slot. *)
Lemma upload_success_beside_video_error :
  map awaiting
    (parked (run mount (fileDuringAnimation ++ [Settle 0 entityNotFound]))) =
    [fileToBase64 (PickedFile (lit "other logo"))] /\
  logoToAnimate
    (state (run mount
              (fileDuringAnimation ++
               [Settle 0 entityNotFound; Settle 0 obliging])))
    = Some (lit "data:image/png;base64,BBBB") /\
  generatedVideo
    (state (run mount
              (fileDuringAnimation ++
               [Settle 0 entityNotFound; Settle 0 obliging])))
    = None /\
  error
    (state (run mount
              (fileDuringAnimation ++
               [Settle 0 entityNotFound; Settle 0 obliging])))
    = Some (lit "API Key not found or invalid. Please re-select your API key.").
Proof. vm_compute. repeat split. Qed.

(** C9: when the credential re-check of requestAnimation reports that no
    key is selected, the run stores that answer: [setHasApiKey(false)] is
    called and [hasApiKey] is false afterwards, whatever it was. *)
Theorem credential_recheck_demotes (env : Env) (s : State) :
  animation_input_valid s ->
  env hasSelectedApiKey = Fulfilled false ->
  In (Did (setHasApiKey false)) (trace (requestAnimation env s)) /\
  hasApiKey (final (requestAnimation env s)) = false.
Proof.
  intros H Hkey. unfold_ops. pass_guards. settle_with Hkey.
  split; [right; left; reflexivity | reflexivity].
Qed.

Lemma credential_recheck_demotes_witness :
  hasApiKey readyState = true /\
  In (Did (setHasApiKey false)) (trace (requestAnimation keyless readyState)) /\
  hasApiKey (final (requestAnimation keyless readyState)) = false.
Proof.
  split; [reflexivity |].
  assert (Hvalid : animation_input_valid readyState).
  { split; [reflexivity | vm_compute; discriminate]. }
  exact (credential_recheck_demotes keyless readyState Hvalid eq_refl).
Defined.

(** C10, as the source has it: when the credential query of
    requestAnimation throws, the run makes no remote video call, never
    raises the busy flag and leaves [generatedVideo] as it was; the thrown
    message goes through the one [catch] block of the handler, so the
    error slot holds it unchanged when it is non-empty and lacks the
    entity-not-found signature, the generic fallback when it is missing or
    empty, and the re-selection message, with [hasApiKey] set to false,
    when it contains the signature. *)
Theorem provider_throw_handled (env : Env) (s : State) (e : Thrown) :
  animation_input_valid s ->
  env hasSelectedApiKey = Rejected e ->
  existsb is_video_call (trace (requestAnimation env s)) = false /\
  existsb raises_video_busy (trace (requestAnimation env s)) = false /\
  generatedVideo (final (requestAnimation env s)) = generatedVideo s /\
  isGeneratingVideo (final (requestAnimation env s)) = false /\
  (forall m, message e = Some m -> m <> [] ->
     includes m (lit "Requested entity was not found") = false ->
     error (final (requestAnimation env s)) = Some m /\
     hasApiKey (final (requestAnimation env s)) = hasApiKey s) /\
  (message e = None \/ message e = Some [] ->
     error (final (requestAnimation env s)) =
       Some (lit "An unknown error occurred during video generation.") /\
     hasApiKey (final (requestAnimation env s)) = hasApiKey s) /\
  (forall m, message e = Some m ->
     includes m (lit "Requested entity was not found") = true ->
     error (final (requestAnimation env s)) =
       Some (lit "API Key not found or invalid. Please re-select your API key.") /\
     hasApiKey (final (requestAnimation env s)) = false).
Proof.
  intros H Hkey.
  rewrite (requestAnimation_provider_throws env s e H Hkey).
  unfold videoErrorMessage.
  split; [| split; [| split; [| split; [| split; [| split]]]]].
  - destruct (includes _ _); reflexivity.
  - destruct (includes _ _); reflexivity.
  - destruct (includes _ _); reflexivity.
  - destruct (includes _ _); reflexivity.
  - intros m Hm Hne Hsig. destruct m as [|c r]; [congruence |].
    rewrite Hm. cbn [or_else]. rewrite Hsig. split; reflexivity.
  - intros [-> | ->]; split; reflexivity.
  - intros m Hm Hsig. destruct m as [|c r]; [discriminate |].
    rewrite Hm. cbn [or_else]. rewrite Hsig. split; reflexivity.
Qed.

Lemma provider_throw_handled_witness :
  generatedVideo (final (requestAnimation providerDown staleState)) =
    generatedVideo staleState /\
  isGeneratingVideo (final (requestAnimation providerDown staleState)) = false /\
  error (final (requestAnimation providerDown staleState)) =
    Some (lit "aistudio is not available").
Proof.
  assert (Hvalid : animation_input_valid staleState).
  { split; [reflexivity | vm_compute; discriminate]. }
  assert (Hplain :
    includes (lit "aistudio is not available")
      (lit "Requested entity was not found") = false).
  { vm_compute; reflexivity. }
  assert (Hne : lit "aistudio is not available" <> []).
  { vm_compute; discriminate. }
  destruct (provider_throw_handled providerDown staleState
              (mkThrown (Some (lit "aistudio is not available")))
              Hvalid eq_refl)
    as (_ & _ & Hvideo & Hbusy & Hverbatim & _).
  split; [exact Hvideo | split; [exact Hbusy |]].
  exact (proj1 (Hverbatim (lit "aistudio is not available") eq_refl Hne Hplain)).
Defined.

(** C10 as the claim words it fails for a thrown message that carries the
    entity-not-found signature: the error slot then holds the re-selection
    message, not the thrown one, and [hasApiKey] is demoted. *)
Lemma provider_signature_throw_rewritten :
  animation_input_valid readyState /\
  providerGone hasSelectedApiKey =
    Rejected (mkThrown (Some (lit "Requested entity was not found"))) /\
  error (final (requestAnimation providerGone readyState)) =
    Some (lit "API Key not found or invalid. Please re-select your API key.") /\
  error (final (requestAnimation providerGone readyState)) <>
    Some (lit "Requested entity was not found") /\
  hasApiKey readyState = true /\
  hasApiKey (final (requestAnimation providerGone readyState)) = false.
Proof.
  split; [split; [reflexivity | vm_compute; discriminate] |].
  split; [reflexivity |].
  split; [vm_compute; reflexivity |].
  split; [vm_compute; discriminate |].
  split; [reflexivity | vm_compute; reflexivity].
Qed.


(** ** Sessions *)

(** An event that leaves the video and the animation input alone and is no
    successful animation request keeps the record valid. *)
Lemma untouched_preserves (s s' : State) (last : option Provenance) :
  generatedVideo s' = generatedVideo s ->
  logoToAnimate s' = logoToAnimate s ->
  video_from_current_logo (s, last) ->
  video_from_current_logo (s', last).
Proof.
  unfold video_from_current_logo. cbn. intros Hv Hl H v Hs'.
  rewrite Hv in Hs'. rewrite Hl. apply H, Hs'.
Qed.

Lemma cleared_preserves (s' : State) (last : option Provenance) :
  generatedVideo s' = None ->
  video_from_current_logo (s', last).
Proof.
  unfold video_from_current_logo. cbn. intros H v Hv. congruence.
Qed.

Lemma serve_preserves (s : State) (last : option Provenance)
  (ev : UserEvent * Env) :
  video_from_current_logo (s, last) ->
  video_from_current_logo
    (serve s ev,
     match animated s ev with
     | Some p => Some p
     | None => last
     end).
Proof.
  intros Hinv. destruct ev as [ev env].
  unfold serve, animated. cbn [fst snd].
  destruct (enabled s ev) eqn:Hen.
  2:{ destruct ev; cbn [andb]; try exact Hinv. rewrite Hen. exact Hinv. }
  destruct ev.
  - apply untouched_preserves with (s := s); auto.
  - cbn [handler]. fold (requestLogo env s).
    destruct (trim (logoPrompt s)) eqn:E.
    + rewrite requestLogo_blank by exact E.
      apply untouched_preserves with (s := s); auto.
    + apply cleared_preserves. unfold_ops. rewrite E. cbn.
      destruct (env (generateLogoImage (logoPrompt s))); reflexivity.
  - cbn [handler]. destruct file as [f|].
    + unfold handleFileChange. cbn.
      destruct (env (fileToBase64 f)) eqn:Ef; cbn.
      * apply cleared_preserves. reflexivity.
      * apply untouched_preserves with (s := s); auto.
    + exact Hinv.
  - apply untouched_preserves with (s := s); auto.
  - apply untouched_preserves with (s := s); auto.
  - cbn [handler]. unfold handleSelectKey. cbn.
    destruct (env openSelectKey); cbn;
      apply untouched_preserves with (s := s); auto.
  - cbn [handler]. rewrite Hen. cbn [andb].
    fold (requestAnimation env s).
    destruct (animation_input_valid_dec s) as [H|H].
    + destruct (env hasSelectedApiKey) as [[|]|e] eqn:Hkey.
      * fold (videoCall s). destruct (env (videoCall s)) as [v|e] eqn:Hv.
        -- rewrite (requestAnimation_fulfilled env s v H Hkey Hv). cbn.
           intros v' Hv'. injection Hv' as <-.
           eexists. split; [reflexivity |]. split; reflexivity.
        -- apply cleared_preserves.
           apply (requestAnimation_rejected_clears env s e H Hkey Hv).
      * rewrite (requestAnimation_keyless env s H Hkey). cbn.
        apply untouched_preserves with (s := s); auto.
      * rewrite (requestAnimation_provider_throws env s e H Hkey).
        destruct (includes _ _); cbn;
          apply untouched_preserves with (s := s); auto.
    + destruct (requestAnimation_invalid env s H) as [m ->]. cbn.
      apply untouched_preserves with (s := s); auto.
Qed.

Lemma play_preserves (evs : list (UserEvent * Env)) (s : State)
  (last : option Provenance) :
  video_from_current_logo (s, last) ->
  video_from_current_logo (play evs s last).
Proof.
  revert s last. induction evs as [|ev rest IH]; intros s last H.
  - exact H.
  - cbn. apply IH, serve_preserves, H.
Qed.

(** C1, as the source has it.  In a session whose operations are served
    one at a time, [generatedVideo], when present, is the video of the
    last successful requestAnimation, and that request was made from the
    logo that is still [logoToAnimate].  requestLogo, once its prompt is
    valid, and a successful replaceAnimationInput leave [generatedVideo]
    cleared.  An edit of [animationPrompt] changes that field only:
    [generatedVideo] stays. *)
Theorem video_matches_animation_input (evs : list (UserEvent * Env)) :
  video_from_current_logo (play evs initialState None) /\
  (forall env s, logo_input_valid s ->
     generatedVideo (final (requestLogo env s)) = None) /\
  (forall env file s base64,
     env (fileToBase64 file) = Fulfilled base64 ->
     generatedVideo (final (replaceAnimationInput env file s)) = None) /\
  (forall env s v,
     final (exec env (handler s (ChangeAnimationPrompt v)) s) =
       perform (setAnimationPrompt v) s /\
     generatedVideo (final (exec env (handler s (ChangeAnimationPrompt v)) s))
       = generatedVideo s).
Proof.
  split; [| split; [| split]].
  - apply play_preserves. apply cleared_preserves. reflexivity.
  - intros env s H. unfold_ops. pass_guards. cbn.
    destruct (env (generateLogoImage (logoPrompt s))); reflexivity.
  - intros env file s base64 H. unfold_ops. settle_with H. reflexivity.
  - intros env s v. split; reflexivity.
Qed.

Lemma video_matches_animation_input_witness :
  generatedVideo (fst (play animatedOnce initialState None)) =
    Some (lit "blob:video-1") /\
  exists p,
    snd (play animatedOnce initialState None) = Some p /\
    video p = lit "blob:video-1" /\
    source_logo p = logoToAnimate (fst (play animatedOnce initialState None)).
Proof.
  assert (Hvideo :
    generatedVideo (fst (play animatedOnce initialState None)) =
      Some (lit "blob:video-1")).
  { vm_compute; reflexivity. }
  split; [exact Hvideo |].
  exact (proj1 (video_matches_animation_input animatedOnce)
           (lit "blob:video-1") Hvideo).
Defined.

(** C1 as the claim words it fails: after an edit of [animationPrompt] the
    video of the last successful request is still shown, although it was
    produced from another prompt. *)
Lemma prompt_edit_keeps_video :
  generatedVideo (fst (play editAfterAnimation initialState None)) =
    Some (lit "blob:video-1") /\
  animationPrompt (fst (play editAfterAnimation initialState None)) =
    lit "The logo zooms in with a glitch effect." /\
  option_map source_prompt (snd (play editAfterAnimation initialState None)) =
    Some (animationPrompt initialState) /\
  ~ video_from_current_pairing (play editAfterAnimation initialState None).
Proof.
  assert (Hvideo :
    generatedVideo (fst (play editAfterAnimation initialState None)) =
      Some (lit "blob:video-1")).
  { vm_compute; reflexivity. }
  assert (Hsource :
    option_map source_prompt
      (snd (play editAfterAnimation initialState None)) =
      Some (animationPrompt initialState)).
  { vm_compute; reflexivity. }
  split; [exact Hvideo |].
  split; [vm_compute; reflexivity |].
  split; [exact Hsource |].
  intros H. destruct (H _ Hvideo) as (p & Hp & _ & _ & Hprompt).
  rewrite Hp in Hsource. cbn in Hsource. injection Hsource as Hsource.
  rewrite Hsource in Hprompt. vm_compute in Hprompt. discriminate.
Qed.

(** ** The event loop and the interval effect *)

Lemma perform_message (e : Effect) (s : State) :
  videoLoadingMessage (perform e s) = videoLoadingMessage s.
Proof. destruct e; reflexivity. Qed.

Lemma advance_message (p : Proc unit) (s : State) :
  videoLoadingMessage (fst (advance p s)) = videoLoadingMessage s.
Proof.
  revert s. induction p as [a | e | e k IH | c k IH]; intros s; cbn.
  - reflexivity.
  - reflexivity.
  - rewrite IH. apply perform_message.
  - reflexivity.
Qed.

(** The two semantics agree: a run of [exec] is the synchronous segment
    of [advance] followed by the run of the resumed handler. *)
Lemma advance_exec (env : Env) (p : Proc unit) (s : State) :
  final (exec env p s) =
  match snd (advance p s) with
  | None => fst (advance p s)
  | Some pk => final (exec env (resume pk (env (awaiting pk))) (fst (advance p s)))
  end.
Proof.
  revert s. induction p as [a | e | e k IH | c k IH]; intros s; cbn.
  - reflexivity.
  - reflexivity.
  - apply IH.
  - reflexivity.
Qed.

(** A requestLogo that passes validation parks once, at the image call;
    in whatever state and however that call settles, the resumed run ends
    there with [isGeneratingLogo] false. *)
Lemma logo_release_when_resumed (s : State) :
  logo_input_valid s ->
  exists pk,
    snd (advance (handleGenerateLogo s) s) = Some pk /\
    awaiting pk = generateLogoImage (logoPrompt s) /\
    forall r s',
      snd (advance (resume pk r) s') = None /\
      isGeneratingLogo (fst (advance (resume pk r) s')) = false.
Proof.
  intros H. unfold_ops. pass_guards. cbn.
  eexists. split; [reflexivity |]. split; [reflexivity |].
  intros r s'. cbn in r |- *. destruct r as [imageB64 | e]; cbn; split; reflexivity.
Qed.

(** A requestAnimation that passes validation parks at the credential
    query.  Resumed in any state, it either ends with [isGeneratingVideo]
    false or parks at the video call, and resumed from there in any state it
    ends with [isGeneratingVideo] false. *)
Lemma video_release_when_resumed (s : State) :
  animation_input_valid s ->
  exists pk,
    snd (advance (handleGenerateVideo s) s) = Some pk /\
    awaiting pk = hasSelectedApiKey /\
    forall r s1,
      match snd (advance (resume pk r) s1) with
      | None => isGeneratingVideo (fst (advance (resume pk r) s1)) = false
      | Some pk' =>
          awaiting pk' = videoCall s /\
          forall r' s2,
            snd (advance (resume pk' r') s2) = None /\
            isGeneratingVideo (fst (advance (resume pk' r') s2)) = false
      end.
Proof.
  intros H. unfold_ops. pass_guards. cbn.
  eexists. split; [reflexivity |]. split; [reflexivity |].
  intros r s1. cbn in r |- *. destruct r as [[|] | e]; cbn.
  - split; [reflexivity |]. intros r' s2. cbn in r' |- *.
    destruct r' as [videoUrl | e]; cbn.
    + split; reflexivity.
    + destruct (includes _ _); cbn; split; reflexivity.
  - reflexivity.
  - destruct (includes _ _); reflexivity.
Qed.

Lemma commit_state (a : App) : state (commit a) = state a.
Proof.
  unfold commit, effect, cleanup.
  destruct (Bool.eqb _ _); [reflexivity |].
  destruct (interval a) as [id|]; [destruct (N.eqb id 0) |]; cbn;
    destruct (isGeneratingVideo (state a)); reflexivity.
Qed.

Lemma commit_follows (a : App) (s : State) (ps : list Parked) :
  mounted a = true ->
  timer_follows_flag a ->
  timer_follows_flag (commit (with_state a s ps)).
Proof.
  unfold timer_follows_flag, commit, with_state. cbn.
  intros Hm [Hpos H]. rewrite Hm in H. destruct H as [Hdeps H].
  rewrite Hdeps.
  destruct (isGeneratingVideo s) eqn:Hs, (isGeneratingVideo (state a)) eqn:Ha;
    cbn.
  - rewrite Hm, Hs. split; [exact Hpos |]. split; [reflexivity | exact H].
  - destruct H as [Hi Ht]. unfold cleanup, effect. cbn. rewrite Hi. cbn.
    rewrite Hs, Hm. cbn. rewrite Hs. split; [lia |]. split; [reflexivity |].
    exists (nextTimer a). rewrite Ht. repeat split. exact Hpos.
  - destruct H as (id & Hi & Ht & Hid). unfold cleanup, effect. cbn.
    rewrite Hi. destruct (N.eqb_spec id 0) as [->|Hne]; [lia |]. cbn.
    rewrite Hs, Hm. cbn. rewrite Hs. split; [exact Hpos |].
    split; [reflexivity |]. split; [reflexivity |].
    rewrite Ht. cbn. rewrite N.eqb_refl. reflexivity.
  - rewrite Hm, Hs. split; [exact Hpos |]. split; [reflexivity | exact H].
Qed.

Lemma step_follows (a : App) (i : Input) :
  timer_follows_flag a -> timer_follows_flag (step a i).
Proof.
  intros H. unfold step. destruct (mounted a) eqn:Hm; cbn [negb]; [| exact H].
  destruct i as [ev | n env | id |].
  - destruct (enabled (state a) ev); [| exact H].
    destruct (advance _ _) as [s' pk]. apply commit_follows; assumption.
  - destruct (nth_error (parked a) n) as [p|]; [| exact H].
    destruct (advance _ _) as [s' pk]. apply commit_follows; assumption.
  - destruct (active id a); [| exact H].
    unfold timer_follows_flag, with_state in *. cbn. exact H.
  - unfold timer_follows_flag in *. rewrite Hm in H. cbn.
    destruct H as [Hpos [Hdeps H]]. unfold cleanup.
    destruct (isGeneratingVideo (state a)).
    + destruct H as (id & Hi & Ht & Hid). rewrite Hi.
      destruct (N.eqb_spec id 0) as [->|Hne]; [lia |]. cbn.
      split; [exact Hpos |]. rewrite Ht. cbn. rewrite N.eqb_refl. reflexivity.
    + destruct H as [Hi Ht]. rewrite Hi. cbn. split; assumption.
Qed.

Lemma mount_follows : timer_follows_flag mount.
Proof. vm_compute. split; [reflexivity |]. repeat split. Qed.

Lemma run_follows (inputs : list Input) (a : App) :
  timer_follows_flag a -> timer_follows_flag (run a inputs).
Proof.
  revert a. induction inputs as [|i rest IH]; intros a H.
  - exact H.
  - cbn. apply IH, step_follows, H.
Qed.

(** Only a tick changes the shown message. *)
Lemma step_message (a : App) (i : Input) :
  (forall id, i <> Tick id) ->
  videoLoadingMessage (state (step a i)) = videoLoadingMessage (state a).
Proof.
  intros Hi. unfold step. destruct (mounted a); cbn [negb]; [| reflexivity].
  destruct i as [ev | n env | id |].
  - destruct (enabled (state a) ev); [| reflexivity].
    destruct (advance _ _) as [s' pk] eqn:E. rewrite commit_state. cbn.
    apply (f_equal fst) in E. cbn in E. subst s'. apply advance_message.
  - destruct (nth_error (parked a) n) as [p|]; [| reflexivity].
    destruct (advance _ _) as [s' pk] eqn:E. rewrite commit_state. cbn.
    apply (f_equal fst) in E. cbn in E. subst s'. apply advance_message.
  - exfalso. apply (Hi id). reflexivity.
  - unfold cleanup. destruct (interval a) as [id|]; [| reflexivity].
    destruct (N.eqb id 0); reflexivity.
Qed.

(** The updater of the tick moves one place on, from the last message to
    the first. *)
Lemma nextLoadingMessage_cycles (i : Z) :
  (0 <= i < 6)%Z ->
  nextLoadingMessage (at_index videoLoadingMessages i) =
    at_index videoLoadingMessages ((i + 1) mod 6) /\
  match at_index videoLoadingMessages ((i + 1) mod 6) with
  | Some m => indexOf videoLoadingMessages m
  | None => (-1)%Z
  end = ((i + 1) mod 6)%Z.
Proof.
  intros H.
  assert (Hcases : (i = 0 \/ i = 1 \/ i = 2 \/ i = 3 \/ i = 4 \/ i = 5)%Z)
    by lia.
  destruct Hcases as [-> | [-> | [-> | [-> | [-> | ->]]]]];
    vm_compute; split; reflexivity.
Qed.

Lemma rotate_listed (a : App) (ps : list Parked) :
  message_listed a ->
  message_listed (with_state a (rotateLoadingMessage (state a)) ps) /\
  messageIndex (with_state a (rotateLoadingMessage (state a)) ps) =
    ((messageIndex a + 1) mod 6)%Z.
Proof.
  intros [Hrange Hmsg].
  destruct (nextLoadingMessage_cycles (messageIndex a) Hrange) as [Hn Hi].
  remember (messageIndex a) as i eqn:Ei.
  unfold message_listed, messageIndex, with_state, rotateLoadingMessage.
  cbn [state videoLoadingMessage].
  rewrite Hmsg, Hn, Hi.
  split; [split |]; try reflexivity.
  apply Z.mod_pos_bound. lia.
Qed.

Lemma step_message_listed (a : App) (i : Input) :
  message_listed a -> message_listed (step a i).
Proof.
  intros H.
  assert (Hkeep :
    videoLoadingMessage (state (step a i)) = videoLoadingMessage (state a) ->
    message_listed (step a i)).
  { intros E. unfold message_listed, messageIndex in *. rewrite E. exact H. }
  destruct i as [ev | n env | id |];
    try (apply Hkeep, step_message; intros; discriminate).
  unfold step. destruct (mounted a); cbn [negb]; [| exact H].
  destruct (active id a); [| exact H].
  apply rotate_listed, H.
Qed.

Lemma run_message_listed (inputs : list Input) (a : App) :
  message_listed a -> message_listed (run a inputs).
Proof.
  revert a. induction inputs as [|i rest IH]; intros a H.
  - exact H.
  - cbn. apply IH, step_message_listed, H.
Qed.

Lemma mount_message_listed : message_listed mount.
Proof. vm_compute. repeat split; discriminate. Qed.

(** A tick of the interval that is set shows the next message and changes
    nothing else the timer depends on. *)
Lemma tick_advances (a : App) (id : N) :
  mounted a = true ->
  timers a = [(id, 4000%N)] ->
  message_listed a ->
  messageIndex (step a (Tick id)) = ((messageIndex a + 1) mod 6)%Z /\
  mounted (step a (Tick id)) = true /\
  timers (step a (Tick id)) = [(id, 4000%N)].
Proof.
  intros Hm Ht Hl. unfold step, active. rewrite Hm, Ht.
  cbn [negb existsb fst orb]. rewrite N.eqb_refl. cbn [orb].
  split; [apply rotate_listed, Hl | split; [exact Hm | exact Ht]].
Qed.

Lemma ticks_advance (n : nat) (a : App) (id : N) :
  mounted a = true ->
  timers a = [(id, 4000%N)] ->
  message_listed a ->
  messageIndex (run a (repeat (Tick id) n)) =
    ((messageIndex a + Z.of_nat n) mod 6)%Z.
Proof.
  revert a. induction n as [|n IH]; intros a Hm Ht Hl.
  - cbn. rewrite Z.add_0_r. symmetry. apply Z.mod_small. apply Hl.
  - cbn [repeat run fold_left].
    destruct (tick_advances a id Hm Ht Hl) as (Hi & Hm' & Ht').
    fold (run (step a (Tick id)) (repeat (Tick id) n)).
    rewrite (IH _ Hm' Ht' (step_message_listed a (Tick id) Hl)).
    rewrite Hi, Zplus_mod_idemp_l. f_equal. lia.
Qed.

Lemma idle_tick (a : App) (id : N) : timers a = [] -> step a (Tick id) = a.
Proof.
  intros Ht. unfold step, active. rewrite Ht. cbn.
  destruct (mounted a); reflexivity.
Qed.

(** C8, as the source has it.  In every state the component reaches from
    its mount: while it is mounted with [isGeneratingVideo] set, exactly
    one interval is set, of 4000 ms, and its ticks move the status message
    through [videoLoadingMessages] in order, wrapping around after the
    last; as soon as the flag is clear or the component is unmounted no
    interval is set and a tick does nothing.  The message is the first of
    the list at the mount, and only a tick changes it: a generation begins
    with the message the previous rotation stopped on. *)
Theorem status_message_rotation (inputs : list Input) :
  (mounted (run mount inputs) = true ->
   isGeneratingVideo (state (run mount inputs)) = true ->
   exists id,
     timers (run mount inputs) = [(id, 4000%N)] /\
     forall n,
       videoLoadingMessage
         (state (run (run mount inputs) (repeat (Tick id) n))) =
       at_index videoLoadingMessages
         ((messageIndex (run mount inputs) + Z.of_nat n) mod 6)) /\
  (isGeneratingVideo (state (run mount inputs)) = false \/
   mounted (run mount inputs) = false ->
   timers (run mount inputs) = [] /\
   forall id, step (run mount inputs) (Tick id) = run mount inputs) /\
  (forall i, (forall id, i <> Tick id) ->
   videoLoadingMessage (state (step (run mount inputs) i)) =
   videoLoadingMessage (state (run mount inputs))) /\
  videoLoadingMessage (state mount) = at_index videoLoadingMessages 0.
Proof.
  pose proof (run_follows inputs mount mount_follows) as Hf.
  pose proof (run_message_listed inputs mount mount_message_listed) as Hl.
  set (a := run mount inputs) in *.
  split; [| split; [| split]].
  - intros Hm Hg. destruct Hf as [_ Hf]. rewrite Hm, Hg in Hf.
    destruct Hf as (_ & id & _ & Ht & _). exists id. split; [exact Ht |].
    intros n.
    pose proof (run_message_listed (repeat (Tick id) n) a Hl) as [_ Hmsg].
    rewrite Hmsg. f_equal. apply ticks_advance; assumption.
  - intros Hidle.
    assert (Ht : timers a = []).
    { destruct Hf as [_ Hf]. destruct (mounted a).
      - destruct Hidle as [Hg | Hm]; [| discriminate].
        rewrite Hg in Hf. apply Hf.
      - exact Hf. }
    split; [exact Ht |]. intros id. apply idle_tick, Ht.
  - intros i Hi. apply step_message, Hi.
  - reflexivity.
Qed.

Lemma status_message_rotation_witness :
  isGeneratingVideo (state (run mount animationPending)) = true /\
  timers (run mount animationPending) = [(1%N, 4000%N)] /\
  videoLoadingMessage
    (state (run (run mount animationPending) (repeat (Tick 1) 7))) =
    at_index videoLoadingMessages 1.
Proof.
  assert (Hm : mounted (run mount animationPending) = true).
  { vm_compute; reflexivity. }
  assert (Hg : isGeneratingVideo (state (run mount animationPending)) = true).
  { vm_compute; reflexivity. }
  assert (Ht : timers (run mount animationPending) = [(1%N, 4000%N)]).
  { vm_compute; reflexivity. }
  assert (Hi : messageIndex (run mount animationPending) = 0%Z).
  { vm_compute; reflexivity. }
  split; [exact Hg |]. split; [exact Ht |].
  destruct (proj1 (status_message_rotation animationPending) Hm Hg)
    as (id & Hid & Hticks).
  rewrite Ht in Hid. injection Hid as <-.
  rewrite (Hticks 7%nat), Hi. reflexivity.
Defined.

(** C8 as the claim words it fails: a second generation begins with the
    second message, where the rotation of the first one stopped. *)
Lemma second_animation_resumes_rotation :
  isGeneratingVideo (state beforeSecondAnimation) = false /\
  isGeneratingVideo (state (step beforeSecondAnimation (Settle 0 obliging))) =
    true /\
  videoLoadingMessage
    (state (step beforeSecondAnimation (Settle 0 obliging))) =
    at_index videoLoadingMessages 1 /\
  ~ starts_at_first_message beforeSecondAnimation (Settle 0 obliging).
Proof.
  assert (Hidle : isGeneratingVideo (state beforeSecondAnimation) = false).
  { vm_compute; reflexivity. }
  assert (Hbusy :
    isGeneratingVideo
      (state (step beforeSecondAnimation (Settle 0 obliging))) = true).
  { vm_compute; reflexivity. }
  split; [exact Hidle |]. split; [exact Hbusy |].
  split; [vm_compute; reflexivity |].
  intros H. specialize (H Hidle Hbusy). vm_compute in H. discriminate.
Qed.

(** Why C1 speaks of operations served one at a time: the file input
    stays enabled while the video call is pending, and the video that
    arrives after an upload was made from the logo the upload replaced. *)
Remark overlapping_upload_keeps_stale_video :
  map awaiting (parked (run mount (firstn 5 uploadDuringAnimation))) =
    [ generateLogoVideo (animationPrompt initialState) (Some (lit "AAAA"))
        Ratio_16_9 ] /\
  logoToAnimate (state (run mount uploadDuringAnimation)) =
    Some (lit "data:image/png;base64,BBBB") /\
  generatedVideo (state (run mount uploadDuringAnimation)) =
    Some (lit "blob:video-1").
Proof. vm_compute. repeat split. Qed.

(** ** Further runs of the generation handlers *)

(** X1: when the image call of a requestLogo is rejected, the completing
    segment, in whatever state the rejection arrives, stores the message
    of the failure, or the fallback when it has none, clears the busy flag
    and writes nothing else: it restores none of the logo, the animation
    input and the video, which the dispatch cleared.  When nothing else is
    served while the call is pending, those three are null at completion
    and the controls of the second panel are disabled, even if a logo had
    been uploaded before. *)
Theorem logo_failure_discards_outputs (env : Env) (s : State) (e : Thrown) :
  logo_input_valid s ->
  env (generateLogoImage (logoPrompt s)) = Rejected e ->
  (forall s',
     settle_in env (snd (advance (handleGenerateLogo s) s)) s' =
     (perform (setIsGeneratingLogo false)
        (perform
           (setError
              (Some (or_else (message e) (lit "Failed to generate logo."))))
           s'), None)) /\
  fst (advance (handleGenerateLogo s) s) = logoDispatched s /\
  (error (final (requestLogo env s)) =
     Some (or_else (message e) (lit "Failed to generate logo.")) /\
   generatedLogo (final (requestLogo env s)) = None /\
   logoToAnimate (final (requestLogo env s)) = None /\
   generatedVideo (final (requestLogo env s)) = None /\
   isGeneratingLogo (final (requestLogo env s)) = false /\
   (forall file,
      enabled (final (requestLogo env s)) (ChangeFile file) = false) /\
   enabled (final (requestLogo env s)) ClickGenerateVideo = false).
Proof.
  intros H Himage. destruct (logo_segments env s H) as [Hd Hc].
  split; [intros s'; rewrite Hc, Himage; reflexivity |].
  split; [exact Hd |].
  clear Hd Hc. unfold_ops. pass_guards. settle_with Himage. repeat split.
Qed.

(** X2: requestLogo calls the image service exactly when the prompt has a
    code unit that is not white space, and then with the prompt as typed,
    not trimmed. *)
Theorem image_call_iff_prompt_not_blank (env : Env) (s : State) :
  existsb is_image_call (trace (requestLogo env s)) =
    negb (forallb is_white_space (logoPrompt s)) /\
  forall p, In (Awaited (generateLogoImage p)) (trace (requestLogo env s)) ->
            p = logoPrompt s.
Proof.
  destruct (forallb is_white_space (logoPrompt s)) eqn:Hb.
  - apply trim_blank in Hb. rewrite (requestLogo_blank env s Hb). cbn.
    split; [reflexivity |]. intros p [H | []]. discriminate.
  - assert (Hv : logo_input_valid s).
    { unfold logo_input_valid. intros Ht. apply trim_blank in Ht. congruence. }
    unfold_ops. pass_guards. cbn.
    destruct (env (generateLogoImage (logoPrompt s))); cbn;
      (split; [reflexivity |]);
      intros p Hin;
      repeat (destruct Hin as [Hin | Hin]; [congruence |]);
      destruct Hin.
Qed.

(** X3: the two validation failures of requestAnimation.  Without a logo
    to animate the run is the single message about the logo, whatever the
    prompt; with a logo and a blank prompt it is the single message about
    the prompt.  Neither queries the credential provider. *)
Theorem animation_validation_messages (env : Env) (s : State) :
  (truthy (logoToAnimate s) = false ->
   requestAnimation env s =
     mkRun
       (perform
          (setError (Some (lit "Please generate or upload a logo to animate.")))
          s)
       [Did (setError
               (Some (lit "Please generate or upload a logo to animate.")))]
       (Fulfilled tt)) /\
  (truthy (logoToAnimate s) = true -> trim (animationPrompt s) = [] ->
   requestAnimation env s =
     mkRun
       (perform
          (setError (Some (lit "Please enter a prompt for the animation."))) s)
       [Did (setError (Some (lit "Please enter a prompt for the animation.")))]
       (Fulfilled tt)).
Proof.
  split.
  - intros H. unfold_ops. rewrite H. reflexivity.
  - intros H Hp. unfold_ops. rewrite H, Hp. reflexivity.
Qed.

(** X4: requestAnimation calls the video service exactly when its input is
    valid and the provider, asked in this run, reports a selected key; the
    [hasApiKey] of the render plays no part.  The call carries the
    animation prompt, the payload of the logo and the aspect ratio of the
    render. *)
Theorem video_call_iff_valid_and_keyed (env : Env) (s : State) :
  (existsb is_video_call (trace (requestAnimation env s)) = true <->
   animation_input_valid s /\ env hasSelectedApiKey = Fulfilled true) /\
  forall p b r,
    In (Awaited (generateLogoVideo p b r)) (trace (requestAnimation env s)) ->
    p = animationPrompt s /\ b = base64Data (logoToAnimate s) /\
    r = aspectRatio s.
Proof.
  destruct (animation_input_valid_dec s) as [H | H].
  - destruct (env hasSelectedApiKey) as [[|] | e] eqn:Hkey.
    + assert (Hshape : exists post,
        trace (requestAnimation env s) =
          [ Awaited hasSelectedApiKey; Did (setHasApiKey true);
            Did (setIsGeneratingVideo true); Did (setError None);
            Did (setGeneratedVideo None); Awaited (videoCall s) ] ++ post /\
        forall p b r, ~ In (Awaited (generateLogoVideo p b r)) post).
      { pose proof H as H'. unfold_ops. pass_guards. settle_with Hkey.
        match goal with |- context [env ?c] => destruct (env c) end; cbn.
        - eexists. split; [reflexivity |]. intros p b r Hin.
          repeat (destruct Hin as [Hin | Hin]; [discriminate |]). exact Hin.
        - destruct (includes _ _); cbn; eexists; (split; [reflexivity |]);
            intros p b r Hin;
            repeat (destruct Hin as [Hin | Hin]; [discriminate |]);
            exact Hin. }
      destruct Hshape as (post & -> & Hpost). split.
      * split; [intros _; split; [exact H | reflexivity] | intros _; reflexivity].
      * intros p b r Hin. cbn in Hin.
        repeat (destruct Hin as [Hin | Hin]; [try discriminate |]).
        -- unfold videoCall in Hin. injection Hin as <- <- <-. repeat split.
        -- exfalso. apply (Hpost p b r Hin).
    + rewrite (requestAnimation_keyless env s H Hkey). cbn. split.
      * split; [discriminate | intros [_ ?]; discriminate].
      * intros p b r Hin.
        repeat (destruct Hin as [Hin | Hin]; [discriminate |]). destruct Hin.
    + rewrite (requestAnimation_provider_throws env s e H Hkey).
      destruct (includes _ _); cbn; split;
        try (split; [discriminate | intros [_ ?]; discriminate]);
        intros p b r Hin;
        repeat (destruct Hin as [Hin | Hin]; [discriminate |]); destruct Hin.
  - destruct (requestAnimation_invalid env s H) as [m ->]. cbn. split.
    + split; [discriminate | intros [? _]; contradiction].
    + intros p b r [Hin | []]. discriminate.
Qed.

(** X5: a requestAnimation whose video call is fulfilled stores the video
    and clears the busy flag in its completing segment, in whatever state
    the video arrives, and writes nothing else there; the error is cleared
    and [hasApiKey] set by the segment that dispatches the call.  When
    nothing else is served during the run, the error is null and
    [hasApiKey] true at completion, and the logo, the animation input, the
    prompt and the aspect ratio are those of the render. *)
Theorem animation_success_stores_video (env : Env) (s : State)
  (videoUrl : jstring) :
  animation_input_valid s ->
  env hasSelectedApiKey = Fulfilled true ->
  env (videoCall s) = Fulfilled videoUrl ->
  (forall s1 s2,
     fst (settle_in env (snd (advance (handleGenerateVideo s) s)) s1) =
       dispatched s1 /\
     settle_in env
       (snd (settle_in env (snd (advance (handleGenerateVideo s) s)) s1)) s2 =
     (perform (setIsGeneratingVideo false)
        (perform (setGeneratedVideo (Some videoUrl)) s2), None)) /\
  (generatedVideo (final (requestAnimation env s)) = Some videoUrl /\
   error (final (requestAnimation env s)) = None /\
   hasApiKey (final (requestAnimation env s)) = true /\
   isGeneratingVideo (final (requestAnimation env s)) = false /\
   logoToAnimate (final (requestAnimation env s)) = logoToAnimate s /\
   generatedLogo (final (requestAnimation env s)) = generatedLogo s /\
   animationPrompt (final (requestAnimation env s)) = animationPrompt s /\
   aspectRatio (final (requestAnimation env s)) = aspectRatio s).
Proof.
  intros H Hkey Hvideo. split.
  - intros s1 s2. destruct (animation_segments env s H) as [_ Hs].
    destruct (Hs s1) as (_ & _ & Htrue).
    destruct (Htrue Hkey) as [Hd Hdone].
    split; [exact Hd |]. rewrite (Hdone env s2), Hvideo. reflexivity.
  - rewrite (requestAnimation_fulfilled env s videoUrl H Hkey Hvideo).
    repeat split.
Qed.

(** ** The payload of a data URL *)

Lemma split_length (sep : N) (s : jstring) :
  length (split sep s) = S (length (filter (N.eqb sep) s)).
Proof.
  induction s as [|c r IH]; cbn.
  - reflexivity.
  - rewrite (N.eqb_sym sep c). destruct (N.eqb c sep); cbn.
    + rewrite IH. reflexivity.
    + destruct (split sep r) as [|piece rest]; [discriminate | exact IH].
Qed.

Lemma split_no_sep (sep : N) (s : jstring) :
  ~ In sep s -> split sep s = [s].
Proof.
  induction s as [|c r IH]; cbn; intros H.
  - reflexivity.
  - destruct (N.eqb_spec c sep) as [-> | Hne].
    + exfalso. apply H. left. reflexivity.
    + rewrite IH by (intros Hin; apply H; right; exact Hin). reflexivity.
Qed.

Lemma split_app_sep (sep : N) (p r : jstring) :
  ~ In sep p -> split sep (p ++ sep :: r) = p :: split sep r.
Proof.
  induction p as [|c q IH]; cbn; intros H.
  - rewrite N.eqb_refl. reflexivity.
  - destruct (N.eqb_spec c sep) as [-> | Hne].
    + exfalso. apply H. left. reflexivity.
    + rewrite IH by (intros Hin; apply H; right; exact Hin). reflexivity.
Qed.

Lemma filter_nil_iff (sep : N) (s : jstring) :
  filter (N.eqb sep) s = [] <-> ~ In sep s.
Proof.
  induction s as [|c r IH]; cbn.
  - tauto.
  - destruct (N.eqb_spec sep c) as [-> | Hne].
    + split; [discriminate | intros H; exfalso; apply H; left; reflexivity].
    + rewrite IH. split.
      * intros H [Hc | Hin]; [congruence | exact (H Hin)].
      * intros H Hin. apply H. right. exact Hin.
Qed.

(** X6: [logoToAnimate.split(',')[1]] is [undefined] exactly when the
    animation input contains no comma. *)
Theorem payload_absent_iff_no_comma (url : jstring) :
  base64Data (Some url) = None <-> ~ In 44%N url.
Proof.
  unfold base64Data. rewrite nth_error_None, split_length.
  rewrite <- filter_nil_iff.
  destruct (filter (N.eqb 44) url); cbn; split; intros H;
    try reflexivity; try lia; discriminate.
Qed.

(** The state a requestLogo leaves when its image call is fulfilled. *)
Lemma requestLogo_fulfilled (env : Env) (s : State) (imageB64 : jstring) :
  logo_input_valid s ->
  env (generateLogoImage (logoPrompt s)) = Fulfilled imageB64 ->
  final (requestLogo env s) =
  perform (setIsGeneratingLogo false)
    (perform
       (setLogoToAnimate (Some (lit "data:image/jpeg;base64," ++ imageB64)))
       (perform
          (setGeneratedLogo (Some (lit "data:image/jpeg;base64," ++ imageB64)))
          (perform (setGeneratedVideo None)
             (perform (setLogoToAnimate None)
                (perform (setGeneratedLogo None)
                   (perform (setError None)
                      (perform (setIsGeneratingLogo true) s))))))).
Proof.
  intros H Himage. unfold_ops. pass_guards. settle_with Himage. reflexivity.
Qed.

(** X7: the payload requestAnimation takes from a generated logo is the
    payload the image call returned: building the data URL and splitting
    it at the comma are inverse, for a payload without a comma (base64 has
    none). *)
Theorem generated_logo_payload_round_trip (env : Env) (s : State)
  (imageB64 : jstring) :
  logo_input_valid s ->
  env (generateLogoImage (logoPrompt s)) = Fulfilled imageB64 ->
  ~ In 44%N imageB64 ->
  base64Data (logoToAnimate (final (requestLogo env s))) = Some imageB64 /\
  videoCall (final (requestLogo env s)) =
    generateLogoVideo (animationPrompt s) (Some imageB64) (aspectRatio s).
Proof.
  intros H Himage Hcomma.
  assert (Hpayload :
    base64Data (Some (lit "data:image/jpeg;base64," ++ imageB64)) =
      Some imageB64).
  { change (lit "data:image/jpeg;base64," ++ imageB64)
      with (lit "data:image/jpeg;base64" ++ 44%N :: imageB64).
    unfold base64Data. rewrite split_app_sep.
    - rewrite (split_no_sep 44 imageB64 Hcomma). reflexivity.
    - intros Hin. vm_compute in Hin.
      repeat (destruct Hin as [Hin | Hin]; [discriminate |]). exact Hin. }
  rewrite (requestLogo_fulfilled env s imageB64 H Himage).
  unfold videoCall. cbn [perform logoToAnimate animationPrompt aspectRatio].
  rewrite Hpayload. split; reflexivity.
Qed.

(** X8: the handler does not check the shape of the animation input: when
    it has no comma, the video call is still made, with an undefined
    payload. *)
Theorem animation_without_payload_still_dispatched (env : Env) (s : State)
  (url : jstring) :
  animation_input_valid s ->
  logoToAnimate s = Some url ->
  ~ In 44%N url ->
  env hasSelectedApiKey = Fulfilled true ->
  In (Awaited (generateLogoVideo (animationPrompt s) None (aspectRatio s)))
    (trace (requestAnimation env s)).
Proof.
  intros H Hurl Hcomma Hkey.
  assert (Hnone : base64Data (logoToAnimate s) = None).
  { rewrite Hurl. unfold base64Data.
    rewrite (split_no_sep 44 url Hcomma). reflexivity. }
  pose proof H as H'. unfold_ops. pass_guards. settle_with Hkey.
  rewrite Hnone. do 5 right. left. reflexivity.
Qed.

(** ** The credential handlers *)

(** X9: checkApiKey stores the answer of the provider and nothing else;
    when the query throws it only logs: the state, the error slot
    included, is as before and the promise of the handler is fulfilled. *)
Theorem credential_refresh_is_best_effort (env : Env) (s : State) :
  (forall keySelected, env hasSelectedApiKey = Fulfilled keySelected ->
     final (refreshCredentialStatus env s) =
       perform (setHasApiKey keySelected) s) /\
  (forall e, env hasSelectedApiKey = Rejected e ->
     final (refreshCredentialStatus env s) = s /\
     trace (refreshCredentialStatus env s) =
       [Awaited hasSelectedApiKey; Did console_error]) /\
  error (final (refreshCredentialStatus env s)) = error s /\
  outcome (refreshCredentialStatus env s) = Fulfilled tt.
Proof.
  unfold_ops. cbn. destruct (env hasSelectedApiKey) as [b | e]; cbn.
  - split; [intros k Hk; injection Hk as <-; destruct s; reflexivity |].
    split; [intros e He; discriminate | split; reflexivity].
  - split; [intros k Hk; discriminate |].
    split; [intros e' _; split; reflexivity | split; reflexivity].
Qed.

(** X10: handleSelectKey, once the selector closes, sets [hasApiKey] and
    clears the error without asking the provider whether a key was
    selected; when the selector throws it stores a fixed message and keeps
    [hasApiKey].  The video and the animation input are kept either
    way. *)
Theorem key_selection_is_optimistic (env : Env) (s : State) :
  (env openSelectKey = Fulfilled tt ->
   trace (selectCredential env s) =
     [Awaited openSelectKey; Did (setHasApiKey true); Did (setError None)] /\
   hasApiKey (final (selectCredential env s)) = true /\
   error (final (selectCredential env s)) = None) /\
  (forall e, env openSelectKey = Rejected e ->
   hasApiKey (final (selectCredential env s)) = hasApiKey s /\
   error (final (selectCredential env s)) =
     Some (lit "Failed to open API key selector. Please try again.")) /\
  ~ In (Awaited hasSelectedApiKey) (trace (selectCredential env s)) /\
  generatedVideo (final (selectCredential env s)) = generatedVideo s /\
  logoToAnimate (final (selectCredential env s)) = logoToAnimate s.
Proof.
  unfold_ops. cbn. destruct (env openSelectKey) as [[] | e]; cbn.
  - split; [intros _; repeat split |].
    split; [intros e He; discriminate |].
    split; [| split; reflexivity].
    intros Hin. repeat (destruct Hin as [Hin | Hin]; [discriminate |]).
    exact Hin.
  - split; [intros He; discriminate |].
    split; [intros e' _; split; reflexivity |].
    split; [| split; reflexivity].
    intros Hin. repeat (destruct Hin as [Hin | Hin]; [discriminate |]).
    exact Hin.
Qed.

(** ** The updater of the status message *)

Lemma indexOf_range (arr : list jstring) (x : jstring) :
  (-1 <= indexOf arr x < Z.of_nat (length arr))%Z.
Proof.
  induction arr as [|y r IH]; cbn [indexOf length].
  - lia.
  - destruct (str_eqb y x); [lia |].
    destruct (indexOf r x) eqn:E; lia.
Qed.

(** X11: the updater of the interval callback always yields one of the six
    messages, whatever the previous value; from a value that is not in the
    list ([indexOf] gives -1) it yields the first message. *)
Theorem next_message_always_listed (prev : option jstring) :
  (exists i m, (0 <= i < 6)%Z /\
     nextLoadingMessage prev = Some m /\
     nth_error videoLoadingMessages (Z.to_nat i) = Some m) /\
  (match prev with
   | Some m => indexOf videoLoadingMessages m = (-1)%Z
   | None => True
   end ->
   nextLoadingMessage prev = nth_error videoLoadingMessages 0).
Proof.
  unfold nextLoadingMessage.
  set (ci := match prev with
             | Some m => indexOf videoLoadingMessages m
             | None => (-1)%Z
             end).
  assert (Hci : (-1 <= ci < 6)%Z).
  { unfold ci. destruct prev as [m|]; [| lia].
    apply (indexOf_range videoLoadingMessages m). }
  split.
  - assert (Hcases :
      (ci = -1 \/ ci = 0 \/ ci = 1 \/ ci = 2 \/ ci = 3 \/ ci = 4 \/ ci = 5)%Z)
      by lia.
    destruct Hcases as [-> | [-> | [-> | [-> | [-> | [-> | ->]]]]]].
    + exists 0%Z. eexists. split; [lia |]. split; vm_compute; reflexivity.
    + exists 1%Z. eexists. split; [lia |]. split; vm_compute; reflexivity.
    + exists 2%Z. eexists. split; [lia |]. split; vm_compute; reflexivity.
    + exists 3%Z. eexists. split; [lia |]. split; vm_compute; reflexivity.
    + exists 4%Z. eexists. split; [lia |]. split; vm_compute; reflexivity.
    + exists 5%Z. eexists. split; [lia |]. split; vm_compute; reflexivity.
    + exists 0%Z. eexists. split; [lia |]. split; vm_compute; reflexivity.
  - intros Hmiss.
    assert (Hm : ci = (-1)%Z).
    { unfold ci. destruct prev; [exact Hmiss | reflexivity]. }
    rewrite Hm. reflexivity.
Qed.

(** ** Runs in flight *)

Lemma commit_parked (a : App) : parked (commit a) = parked a.
Proof.
  unfold commit, effect, cleanup.
  destruct (Bool.eqb _ _); [reflexivity |].
  destruct (interval a) as [id|]; [destruct (N.eqb id 0) |]; cbn;
    destruct (isGeneratingVideo (state a)); reflexivity.
Qed.

Lemma commit_mounted (a : App) : mounted (commit a) = mounted a.
Proof.
  unfold commit, effect, cleanup.
  destruct (Bool.eqb _ _); [reflexivity |].
  destruct (interval a) as [id|]; [destruct (N.eqb id 0) |]; cbn;
    destruct (isGeneratingVideo (state a)); reflexivity.
Qed.

(** What a served user event leaves, whatever the interval effect does. *)
Lemma step_user (a : App) (ev : UserEvent) :
  mounted a = true ->
  enabled (state a) ev = true ->
  state (step a (User ev)) = fst (advance (handler (state a) ev) (state a)) /\
  parked (step a (User ev)) =
    parked a ++ park (snd (advance (handler (state a) ev) (state a))) /\
  mounted (step a (User ev)) = true.
Proof.
  intros Hm Hen. unfold step. rewrite Hm, Hen. cbn [negb].
  destruct (advance _ _) as [s' pk].
  rewrite commit_state, commit_parked, commit_mounted. cbn.
  repeat split. exact Hm.
Qed.

(** What a settled promise leaves. *)
Lemma step_settle (a : App) (n : nat) (env : Env) (p : Parked) :
  mounted a = true ->
  nth_error (parked a) n = Some p ->
  state (step a (Settle n env)) =
    fst (advance (resume p (env (awaiting p))) (state a)) /\
  parked (step a (Settle n env)) =
    drop_nth n (parked a) ++
    park (snd (advance (resume p (env (awaiting p))) (state a))) /\
  mounted (step a (Settle n env)) = true.
Proof.
  intros Hm Hn. unfold step. rewrite Hm, Hn. cbn [negb].
  destruct (advance _ _) as [s' pk].
  rewrite commit_state, commit_parked, commit_mounted. cbn.
  repeat split. exact Hm.
Qed.

Lemma nth_error_middle {A : Type} (l r : list A) (x : A) :
  nth_error (l ++ x :: r) (length l) = Some x.
Proof. induction l as [|y l IH]; [reflexivity | exact IH]. Qed.

Lemma drop_nth_middle {A : Type} (l r : list A) (x : A) :
  drop_nth (length l) (l ++ x :: r) = l ++ r.
Proof.
  induction l as [|y l IH]; [reflexivity |]. cbn. rewrite IH. reflexivity.
Qed.

(** The first segment of a valid [handleGenerateVideo] changes nothing and
    parks at the key check; resumed with a selected key, the run parks at
    the video call of the render it was started from. *)
Lemma animation_click_parks (s : State) :
  animation_input_valid s ->
  exists pk,
    (forall s', advance (handleGenerateVideo s) s' = (s', Some pk)) /\
    forall (env : Env) (s1 : State),
      env hasSelectedApiKey = Fulfilled true ->
      exists pkv,
        advance (resume pk (env (awaiting pk))) s1 =
          (dispatched s1, Some pkv) /\
        awaiting pkv = videoCall s.
Proof.
  intros H. unfold_ops. pass_guards. cbn.
  eexists. split; [intros s'; reflexivity |].
  intros env s1 Hkey. cbn. rewrite Hkey. cbn.
  eexists. split; reflexivity.
Qed.

(** X13: the animation button does not exclude a second request.  The
    first segment of handleGenerateVideo changes no state, so the button
    is still enabled until the key check settles; two clicks served before
    that end in two video calls in flight, both for the render of the
    clicks. *)
Theorem animation_clicks_overlap (a : App) (env : Env) :
  mounted a = true ->
  enabled (state a) ClickGenerateVideo = true ->
  trim (animationPrompt (state a)) <> [] ->
  env hasSelectedApiKey = Fulfilled true ->
  state (step a (User ClickGenerateVideo)) = state a /\
  enabled (state (step a (User ClickGenerateVideo))) ClickGenerateVideo
    = true /\
  map awaiting
    (parked
       (run a [ User ClickGenerateVideo; User ClickGenerateVideo;
                Settle (length (parked a)) env;
                Settle (length (parked a)) env ])) =
  map awaiting (parked a) ++ [videoCall (state a); videoCall (state a)].
Proof.
  intros Hm Hen Hprompt Hkey.
  assert (Hvalid : animation_input_valid (state a)).
  { split; [| exact Hprompt]. cbn in Hen.
    destruct (truthy (logoToAnimate (state a))); [reflexivity | discriminate]. }
  destruct (animation_click_parks (state a) Hvalid) as (pk & Hpark & Hresume).
  destruct (step_user a ClickGenerateVideo Hm Hen) as (Hs1 & Hp1 & Hm1).
  cbn [handler] in Hs1, Hp1. rewrite Hpark in Hs1, Hp1. cbn in Hs1, Hp1.
  split; [exact Hs1 |]. split; [rewrite Hs1; exact Hen |].
  set (a1 := step a (User ClickGenerateVideo)) in *.
  assert (Hen1 : enabled (state a1) ClickGenerateVideo = true)
    by (rewrite Hs1; exact Hen).
  destruct (step_user a1 ClickGenerateVideo Hm1 Hen1) as (Hs2 & Hp2 & Hm2).
  cbn [handler] in Hs2, Hp2. rewrite Hs1, Hpark in Hs2, Hp2.
  cbn in Hs2, Hp2. rewrite Hp1 in Hp2.
  set (a2 := step a1 (User ClickGenerateVideo)) in *.
  assert (Hn2 : nth_error (parked a2) (length (parked a)) = Some pk).
  { rewrite Hp2, <- app_assoc. apply nth_error_middle. }
  destruct (step_settle a2 (length (parked a)) env pk Hm2 Hn2)
    as (Hs3 & Hp3 & Hm3).
  destruct (Hresume env (state a2) Hkey) as (pkv & Hadv & Hcall).
  rewrite Hadv in Hs3, Hp3. cbn in Hs3, Hp3.
  rewrite Hp2, <- app_assoc in Hp3. cbn in Hp3.
  rewrite drop_nth_middle in Hp3.
  set (a3 := step a2 (Settle (length (parked a)) env)) in *.
  assert (Hn3 : nth_error (parked a3) (length (parked a)) = Some pk).
  { rewrite Hp3, <- app_assoc. apply nth_error_middle. }
  destruct (step_settle a3 (length (parked a)) env pk Hm3 Hn3)
    as (_ & Hp4 & _).
  destruct (Hresume env (state a3) Hkey) as (pkv' & Hadv' & Hcall').
  rewrite Hadv' in Hp4. cbn in Hp4.
  rewrite Hp3, <- app_assoc in Hp4. cbn in Hp4.
  rewrite drop_nth_middle in Hp4.
  change (run a _) with (step a3 (Settle (length (parked a)) env)).
  rewrite Hp4, <- app_assoc, map_app. cbn. rewrite Hcall, Hcall'.
  reflexivity.
Qed.

Lemma at_index_listed (i : Z) :
  (0 <= i < 6)%Z ->
  exists m,
    at_index videoLoadingMessages i = Some m /\
    nth_error videoLoadingMessages (Z.to_nat i) = Some m.
Proof.
  intros H.
  assert (Hcases : (i = 0 \/ i = 1 \/ i = 2 \/ i = 3 \/ i = 4 \/ i = 5)%Z)
    by lia.
  destruct Hcases as [-> | [-> | [-> | [-> | [-> | ->]]]]];
    eexists; split; reflexivity.
Qed.

(** X12: in every state the component reaches from its mount, under any
    interleaving of events, settled promises and ticks, the status message
    is one of the six of [videoLoadingMessages]. *)
Theorem message_always_listed (inputs : list Input) :
  exists i m,
    (0 <= i < 6)%Z /\
    videoLoadingMessage (state (run mount inputs)) = Some m /\
    nth_error videoLoadingMessages (Z.to_nat i) = Some m.
Proof.
  destruct (run_message_listed inputs mount mount_message_listed)
    as [Hrange Hmsg].
  destruct (at_index_listed _ Hrange) as (m & Hm & Hnth).
  exists (messageIndex (run mount inputs)), m.
  split; [exact Hrange |]. split; [rewrite Hmsg; exact Hm | exact Hnth].
Qed.

(** ** One logo request at a time *)

Lemma perform_spares_logo_stage (e : Effect) (s : State) :
  spares_logo_stage e = true ->
  isGeneratingLogo (perform e s) = isGeneratingLogo s /\
  generatedLogo (perform e s) = generatedLogo s.
Proof. destruct e; cbn; intros H; try discriminate; split; reflexivity. Qed.

(** A run that leaves the logo stage alone does so up to its next await,
    and is again such a run when it is resumed. *)
Lemma advance_confined (p : Proc unit) (s : State) :
  confined spares_logo_stage not_image_request p ->
  isGeneratingLogo (fst (advance p s)) = isGeneratingLogo s /\
  generatedLogo (fst (advance p s)) = generatedLogo s /\
  match snd (advance p s) with
  | Some pk => other_run pk
  | None => True
  end.
Proof.
  revert s. induction p as [a | e | e k IH | c k IH]; intros s H; cbn.
  - repeat split.
  - repeat split.
  - destruct H as [He Hk].
    destruct (IH (perform e s) Hk) as (Hb & Hl & Hp).
    destruct (perform_spares_logo_stage e s He) as [Hb' Hl'].
    rewrite Hb, Hl, Hb', Hl'. repeat split. exact Hp.
  - destruct H as [Hc Hk]. repeat split.
    + unfold not_image_request in Hc. cbn.
      destruct (is_image_request c); [discriminate | reflexivity].
    + exact Hk.
Qed.

(** Every handler but [handleGenerateLogo] leaves the logo stage alone. *)
Lemma handler_confined (s : State) (ev : UserEvent) :
  ev <> ClickGenerateLogo ->
  confined spares_logo_stage not_image_request (handler s ev).
Proof.
  intros Hev. destruct ev as [v | | file | v | r | |]; cbn [handler].
  - repeat split.
  - congruence.
  - destruct file as [f|]; cbn; [| exact I].
    repeat split. intros [base64 | e]; cbn; repeat split.
  - repeat split.
  - repeat split.
  - unfold handleSelectKey. cbn. split; [reflexivity |].
    intros [[] | e]; cbn; repeat split.
  - unfold handleGenerateVideo.
    destruct (truthy (logoToAnimate s)); cbn; [| repeat split].
    destruct (trim (animationPrompt s)); cbn; [repeat split |].
    split; [reflexivity |].
    intros [[|] | e]; cbn.
    + repeat split. intros [videoUrl | e]; cbn.
      * repeat split.
      * split; [reflexivity |]. destruct (includes _ _); cbn; repeat split.
    + repeat split.
    + split; [reflexivity |]. destruct (includes _ _); cbn; repeat split.
Qed.

Lemma checkApiKey_confined :
  confined spares_logo_stage not_image_request checkApiKey.
Proof.
  unfold checkApiKey. cbn. split; [reflexivity |].
  intros [keySelected | e]; cbn; repeat split.
Qed.

(** The first segment of [handleGenerateLogo]. *)
Lemma logo_click_advance (s : State) :
  (trim (logoPrompt s) = [] /\
   advance (handleGenerateLogo s) s =
     (perform
        (setError (Some (lit "Please enter a description for your logo.")))
        s, None)) \/
  (exists pk,
     snd (advance (handleGenerateLogo s) s) = Some pk /\
     image_run pk /\
     isGeneratingLogo (fst (advance (handleGenerateLogo s) s)) = true /\
     generatedLogo (fst (advance (handleGenerateLogo s) s)) = None).
Proof.
  unfold handleGenerateLogo.
  destruct (trim (logoPrompt s)) as [|c r] eqn:E; cbn.
  - left. split; reflexivity.
  - right. eexists. split; [reflexivity |].
    split; [| split; reflexivity].
    split; [reflexivity |].
    intros res s'. cbn in res |- *.
    destruct res as [imageB64 | e]; cbn; split; reflexivity.
Qed.

Lemma imageRequests_app (l r : list Parked) :
  imageRequests (l ++ r) = imageRequests l ++ imageRequests r.
Proof. apply filter_app. Qed.

Lemma drop_nth_Forall {A : Type} (P : A -> Prop) (n : nat) (l : list A) :
  Forall P l -> Forall P (drop_nth n l).
Proof.
  revert n. induction l as [|x l IH]; intros n H; cbn.
  - destruct n; constructor.
  - inversion H as [|? ? Hx Hl]; subst. destruct n as [|n]; [exact Hl |].
    constructor; [exact Hx | apply IH, Hl].
Qed.

Lemma drop_nth_imageRequests (n : nat) (l : list Parked) (p : Parked) :
  nth_error l n = Some p ->
  length (imageRequests l) =
    ((if is_image_request (awaiting p) then 1 else 0) +
     length (imageRequests (drop_nth n l)))%nat.
Proof.
  revert n. induction l as [|x l IH]; intros n H.
  - destruct n; discriminate.
  - destruct n as [|n]; cbn in H.
    + injection H as ->. unfold imageRequests. cbn.
      destruct (is_image_request (awaiting p)); reflexivity.
    + specialize (IH n H). unfold imageRequests in *. cbn [drop_nth filter].
      destruct (is_image_request (awaiting x)); cbn [length]; lia.
Qed.

Lemma other_run_not_image (pk : Parked) :
  other_run pk -> imageRequests [pk] = [].
Proof. intros [H _]. unfold imageRequests. cbn. rewrite H. reflexivity. Qed.

Lemma image_run_is_image (pk : Parked) :
  image_run pk -> imageRequests [pk] = [pk].
Proof. intros [H _]. unfold imageRequests. cbn. rewrite H. reflexivity. Qed.

Lemma step_one_logo_request (a : App) (i : Input) :
  one_logo_request a -> one_logo_request (step a i).
Proof.
  intros Hinv. destruct (mounted a) eqn:Hm.
  2:{ unfold step. rewrite Hm. exact Hinv. }
  destruct Hinv as (Hall & Hcount & Hlogo).
  destruct i as [ev | n env | id |].
  - destruct (enabled (state a) ev) eqn:Hen.
    2:{ unfold step. rewrite Hm, Hen. repeat split; assumption. }
    destruct (step_user a ev Hm Hen) as (Hs & Hp & _).
    unfold one_logo_request. rewrite Hs, Hp, imageRequests_app, length_app.
    assert (Hev : ev = ClickGenerateLogo \/ ev <> ClickGenerateLogo).
    { destruct ev; (left; reflexivity) || (right; discriminate). }
    destruct Hev as [-> | Hev].
    + cbn in Hen. cbn [handler].
      destruct (isGeneratingLogo (state a)) eqn:Hb; [discriminate |].
      destruct (logo_click_advance (state a))
        as [[_ ->] | (pk & -> & Hpk & -> & ->)].
      * cbn [fst snd park]. rewrite app_nil_r.
        split; [exact Hall |]. split.
        -- cbn. rewrite Hb, Hcount. reflexivity.
        -- cbn. rewrite Hb. discriminate.
      * cbn [park]. rewrite (image_run_is_image pk Hpk). split.
        -- apply Forall_app. split; [exact Hall |].
           constructor; [left; exact Hpk | constructor].
        -- split; [rewrite Hcount; reflexivity | reflexivity].
    + destruct (advance_confined (handler (state a) ev) (state a)
                  (handler_confined (state a) ev Hev)) as (Hb & Hl & Hpk).
      rewrite Hb, Hl.
      destruct (snd (advance (handler (state a) ev) (state a))) as [pk|];
        cbn [park].
      * rewrite (other_run_not_image pk Hpk). split.
        -- apply Forall_app. split; [exact Hall |].
           constructor; [right; exact Hpk | constructor].
        -- split; [rewrite Hcount; cbn; lia | exact Hlogo].
      * rewrite app_nil_r. split; [exact Hall |].
        split; [rewrite Hcount; cbn; lia | exact Hlogo].
  - destruct (nth_error (parked a) n) as [p|] eqn:Hn.
    2:{ unfold step. rewrite Hm, Hn. repeat split; assumption. }
    destruct (step_settle a n env p Hm Hn) as (Hs & Hp & _).
    unfold one_logo_request. rewrite Hs, Hp, imageRequests_app, length_app.
    pose proof (drop_nth_imageRequests n (parked a) p Hn) as Hdrop.
    pose proof (drop_nth_Forall _ n (parked a) Hall) as Hall'.
    assert (Hp_ok : image_run p \/ other_run p).
    { rewrite Forall_forall in Hall. apply Hall.
      apply nth_error_In with (n := n). exact Hn. }
    destruct Hp_ok as [[Himg Hend] | [Himg Hrest]].
    + destruct (Hend (env (awaiting p)) (state a)) as [-> ->].
      rewrite Himg in Hdrop. cbn [park]. rewrite app_nil_r.
      split; [exact Hall' |]. split; [| discriminate].
      cbn [imageRequests filter length].
      destruct (isGeneratingLogo (state a)); lia.
    + destruct (advance_confined _ (state a) (Hrest (env (awaiting p))))
        as (Hb & Hl & Hpk).
      rewrite Hb, Hl. rewrite Himg in Hdrop.
      destruct (snd (advance _ _)) as [pk|]; cbn [park].
      * rewrite (other_run_not_image pk Hpk). split.
        -- apply Forall_app. split; [exact Hall' |].
           constructor; [right; exact Hpk | constructor].
        -- split; [rewrite <- Hcount; cbn; lia | exact Hlogo].
      * rewrite app_nil_r. split; [exact Hall' |].
        split; [rewrite <- Hcount; cbn; lia | exact Hlogo].
  - unfold step. rewrite Hm. cbn [negb].
    destruct (active id a); repeat split; assumption.
  - unfold step. rewrite Hm. cbn [negb]. unfold cleanup.
    destruct (interval a) as [id|]; [destruct (N.eqb id 0) |];
      repeat split; assumption.
Qed.

Lemma mount_one_logo_request : one_logo_request mount.
Proof.
  unfold one_logo_request, mount. cbn. split.
  - constructor; [| constructor]. right. split; [reflexivity |].
    intros [keySelected | e]; cbn; repeat split.
  - split; [reflexivity | discriminate].
Qed.

Lemma run_one_logo_request (inputs : list Input) (a : App) :
  one_logo_request a -> one_logo_request (run a inputs).
Proof.
  revert a. induction inputs as [|i rest IH]; intros a H.
  - exact H.
  - cbn. apply IH, step_one_logo_request, H.
Qed.

(** X14: logo requests exclude each other.  In every state the component
    reaches from its mount, exactly one image call is in flight while
    [isGeneratingLogo] is set and none otherwise; while it is set no
    generated logo is stored, and the logo button and the logo prompt are
    disabled. *)
Theorem logo_requests_are_exclusive (inputs : list Input) :
  length (imageRequests (parked (run mount inputs))) =
    (if isGeneratingLogo (state (run mount inputs)) then 1 else 0)%nat /\
  (isGeneratingLogo (state (run mount inputs)) = true ->
   generatedLogo (state (run mount inputs)) = None /\
   enabled (state (run mount inputs)) ClickGenerateLogo = false /\
   forall v, enabled (state (run mount inputs)) (ChangeLogoPrompt v) = false).
Proof.
  destruct (run_one_logo_request inputs mount mount_one_logo_request)
    as (_ & Hcount & Hlogo).
  split; [exact Hcount |].
  intros Hb. split; [exact (Hlogo Hb) |]. unfold enabled. rewrite Hb.
  split; [reflexivity | intros v; reflexivity].
Qed.

(** ** What is rendered *)

(** X15: in every render each output area shows exactly one of spinner,
    result and placeholder; the animation hint and the animation panel
    exclude each other; inside the panel exactly one of the key prompt and
    the animation button is rendered and outside it none of its parts; and
    a control accepts an event only when it is rendered. *)
Theorem render_parts_exclusive (s : State) :
  one_of (logoSpinner (render s)) (logoImage (render s))
    (logoPlaceholder (render s)) = true /\
  xorb (animationHint (render s)) (animationPanel (render s)) = true /\
  (animationPanel (render s) = true ->
   xorb (keyPrompt (render s)) (animateButton (render s)) = true /\
   one_of (videoSpinner (render s)) (videoPlayer (render s))
     (videoPlaceholder (render s)) = true) /\
  (animationPanel (render s) = false ->
   keyPrompt (render s) = false /\ animateButton (render s) = false /\
   videoSpinner (render s) = false /\ videoPlayer (render s) = false /\
   videoPlaceholder (render s) = false) /\
  forall ev, enabled s ev = true -> rendered s ev = true.
Proof.
  split; [| split; [| split; [| split]]].
  - unfold render. cbn.
    destruct (isGeneratingLogo s), (truthy (generatedLogo s)); reflexivity.
  - unfold render. cbn. destruct (truthy (logoToAnimate s)); reflexivity.
  - unfold render. cbn. intros ->. cbn.
    destruct (hasApiKey s), (isGeneratingVideo s),
      (truthy (generatedVideo s)); split; reflexivity.
  - unfold render. cbn. intros ->. repeat split.
  - intros ev. unfold rendered, render, enabled. cbn.
    destruct ev; try reflexivity;
      destruct (truthy (logoToAnimate s)), (hasApiKey s),
        (isGeneratingVideo s); cbn; intros H;
        try discriminate; reflexivity.
Qed.

(** ** The frame of an operation *)

Lemma perform_spares_user_input (e : Effect) (s : State) :
  spares_user_input e = true ->
  logoPrompt (perform e s) = logoPrompt s /\
  animationPrompt (perform e s) = animationPrompt s /\
  aspectRatio (perform e s) = aspectRatio s.
Proof. destruct e; cbn; intros H; try discriminate; repeat split. Qed.

Lemma exec_confined_input (env : Env) (p : Proc unit) (s : State) :
  confined spares_user_input any_call p ->
  logoPrompt (final (exec env p s)) = logoPrompt s /\
  animationPrompt (final (exec env p s)) = animationPrompt s /\
  aspectRatio (final (exec env p s)) = aspectRatio s /\
  videoLoadingMessage (final (exec env p s)) = videoLoadingMessage s.
Proof.
  revert s. induction p as [a | e | e k IH | c k IH]; intros s H; cbn.
  - repeat split.
  - repeat split.
  - destruct H as [He Hk].
    destruct (IH (perform e s) Hk) as (H1 & H2 & H3 & H4).
    destruct (perform_spares_user_input e s He) as (H1' & H2' & H3').
    rewrite H1, H2, H3, H4, H1', H2', H3', perform_message. repeat split.
  - destruct H as [_ Hk]. apply (IH (env c) s (Hk (env c))).
Qed.

(** The five handlers call no setter of the prompts or the aspect ratio. *)
Lemma operations_confined (s : State) (file : option File) :
  confined spares_user_input any_call (handleGenerateLogo s) /\
  confined spares_user_input any_call (handleGenerateVideo s) /\
  confined spares_user_input any_call (handleFileChange file) /\
  confined spares_user_input any_call handleSelectKey /\
  confined spares_user_input any_call checkApiKey.
Proof.
  split; [| split; [| split; [| split]]].
  - unfold handleGenerateLogo.
    destruct (trim (logoPrompt s)); cbn; [repeat split |].
    repeat split. intros [imageB64 | e]; cbn; repeat split.
  - unfold handleGenerateVideo.
    destruct (truthy (logoToAnimate s)); cbn; [| repeat split].
    destruct (trim (animationPrompt s)); cbn; [repeat split |].
    split; [reflexivity |].
    intros [[|] | e]; cbn.
    + repeat split. intros [videoUrl | e]; cbn.
      * repeat split.
      * split; [reflexivity |]. destruct (includes _ _); cbn; repeat split.
    + repeat split.
    + split; [reflexivity |]. destruct (includes _ _); cbn; repeat split.
  - destruct file as [f|]; cbn; [| exact I].
    repeat split. intros [base64 | e]; cbn; repeat split.
  - unfold handleSelectKey. cbn. split; [reflexivity |].
    intros [[] | e]; cbn; repeat split.
  - unfold checkApiKey. cbn. split; [reflexivity |].
    intros [keySelected | e]; cbn; repeat split.
Qed.

(** X17: whatever the collaborators do, a served event changes of the
    prompts and the aspect ratio only the one its control edits: no
    operation trims, clears or otherwise rewrites what the user typed or
    picked, and no handler touches the status message.  The same holds of
    checkApiKey, which no control starts. *)
Theorem operations_keep_user_input (env : Env) (s : State) (ev : UserEvent) :
  (logoPrompt (final (exec env (handler s ev) s)) =
     match ev with
     | ChangeLogoPrompt v => v
     | _ => logoPrompt s
     end /\
   animationPrompt (final (exec env (handler s ev) s)) =
     match ev with
     | ChangeAnimationPrompt v => v
     | _ => animationPrompt s
     end /\
   aspectRatio (final (exec env (handler s ev) s)) =
     match ev with
     | ClickAspectRatio r => r
     | _ => aspectRatio s
     end /\
   videoLoadingMessage (final (exec env (handler s ev) s)) =
     videoLoadingMessage s) /\
  (logoPrompt (final (refreshCredentialStatus env s)) = logoPrompt s /\
   animationPrompt (final (refreshCredentialStatus env s)) =
     animationPrompt s /\
   aspectRatio (final (refreshCredentialStatus env s)) = aspectRatio s /\
   videoLoadingMessage (final (refreshCredentialStatus env s)) =
     videoLoadingMessage s).
Proof.
  split.
  - destruct ev as [v | | file | v | r | |]; cbn [handler];
      try (repeat split; fail);
      apply exec_confined_input, (operations_confined s None) ||
      apply exec_confined_input, (operations_confined s file).
  - apply exec_confined_input, (operations_confined s None).
Qed.

(** X16: the key flag set by handleSelectKey without asking the provider
    is checked again by the next requestAnimation: when the provider then
    reports no key, no video call is made, and with a valid input the
    flag is back to false with the message that asks for a key. *)
Theorem optimistic_key_is_rechecked (env : Env) (s : State) :
  env openSelectKey = Fulfilled tt ->
  env hasSelectedApiKey = Fulfilled false ->
  hasApiKey (final (selectCredential env s)) = true /\
  existsb is_video_call
    (trace (requestAnimation env (final (selectCredential env s)))) = false /\
  (animation_input_valid s ->
   hasApiKey (final (requestAnimation env (final (selectCredential env s))))
     = false /\
   error (final (requestAnimation env (final (selectCredential env s)))) =
     Some (lit "Please select an API key to generate videos.")).
Proof.
  intros Hsel Hkey. rewrite selectCredential_run, Hsel.
  set (s1 := perform (setError None) (perform (setHasApiKey true) s)).
  split; [reflexivity |].
  destruct (animation_input_valid_dec s) as [H | H].
  - assert (H1 : animation_input_valid s1) by exact H.
    rewrite (requestAnimation_keyless env s1 H1 Hkey). cbn.
    split; [reflexivity |]. intros _. split; reflexivity.
  - assert (H1 : ~ animation_input_valid s1) by exact H.
    destruct (requestAnimation_invalid env s1 H1) as [m ->]. cbn.
    split; [reflexivity |]. intros Hv. contradiction.
Qed.

Lemma optimistic_key_is_rechecked_witness :
  hasApiKey unkeyedState = false /\
  hasApiKey (final (selectCredential keyless unkeyedState)) = true /\
  hasApiKey
    (final (requestAnimation keyless (final (selectCredential keyless unkeyedState))))
    = false.
Proof.
  assert (Hvalid : animation_input_valid unkeyedState).
  { split; [reflexivity | vm_compute; discriminate]. }
  destruct (optimistic_key_is_rechecked keyless unkeyedState eq_refl eq_refl)
    as (Hset & _ & Hback).
  split; [reflexivity |].
  split; [exact Hset | exact (proj1 (Hback Hvalid))].
Defined.

(** ** Concrete runs *)

Lemma logo_failure_discards_outputs_witness :
  logoToAnimate readyState = Some (lit "data:image/jpeg;base64,AAAA") /\
  error (final (requestLogo imageFails readyState)) =
    Some (lit "Failed to generate logo.") /\
  logoToAnimate (final (requestLogo imageFails readyState)) = None /\
  enabled (final (requestLogo imageFails readyState)) ClickGenerateVideo
    = false.
Proof.
  assert (Hvalid : logo_input_valid readyState).
  { vm_compute; discriminate. }
  destruct (logo_failure_discards_outputs imageFails readyState
              (mkThrown None) Hvalid eq_refl)
    as (_ & _ & Herr & _ & Hlogo & _ & _ & _ & Hbutton).
  split; [reflexivity |]. split; [exact Herr |].
  split; [exact Hlogo | exact Hbutton].
Defined.

Lemma animation_success_stores_video_witness :
  generatedVideo (final (requestAnimation obliging readyState)) =
    Some (lit "blob:video-1") /\
  error (final (requestAnimation obliging readyState)) = None /\
  isGeneratingVideo (final (requestAnimation obliging readyState)) = false.
Proof.
  assert (Hvalid : animation_input_valid readyState).
  { split; [reflexivity | vm_compute; discriminate]. }
  destruct (animation_success_stores_video obliging readyState
              (lit "blob:video-1") Hvalid eq_refl eq_refl)
    as (_ & Hvideo & Herr & _ & Hbusy & _).
  split; [exact Hvideo |]. split; [exact Herr | exact Hbusy].
Defined.

Lemma generated_logo_payload_round_trip_witness :
  videoCall (final (requestLogo obliging initialState)) =
    generateLogoVideo (animationPrompt initialState) (Some (lit "AAAA"))
      Ratio_16_9.
Proof.
  assert (Hvalid : logo_input_valid initialState).
  { vm_compute; discriminate. }
  assert (Hcomma : ~ In 44%N (lit "AAAA")).
  { vm_compute. intros Hin.
    repeat (destruct Hin as [Hin | Hin]; [discriminate |]). exact Hin. }
  exact (proj2 (generated_logo_payload_round_trip obliging initialState
                  (lit "AAAA") Hvalid eq_refl Hcomma)).
Defined.

Lemma animation_without_payload_witness :
  In (Awaited (generateLogoVideo (lit "spin") None Ratio_16_9))
    (trace (requestAnimation obliging rawLogoState)).
Proof.
  assert (Hvalid : animation_input_valid rawLogoState).
  { split; [reflexivity | vm_compute; discriminate]. }
  assert (Hcomma : ~ In 44%N (lit "AAAA")).
  { vm_compute. intros Hin.
    repeat (destruct Hin as [Hin | Hin]; [discriminate |]). exact Hin. }
  exact (animation_without_payload_still_dispatched obliging rawLogoState
           (lit "AAAA") Hvalid eq_refl Hcomma eq_refl).
Defined.

Lemma animation_clicks_overlap_witness :
  state (step logoReady (User ClickGenerateVideo)) = state logoReady /\
  map awaiting
    (parked
       (run logoReady
          [ User ClickGenerateVideo; User ClickGenerateVideo;
            Settle (length (parked logoReady)) obliging;
            Settle (length (parked logoReady)) obliging ])) =
  map awaiting (parked logoReady) ++
  [videoCall (state logoReady); videoCall (state logoReady)].
Proof.
  assert (Hm : mounted logoReady = true) by (vm_compute; reflexivity).
  assert (Hen : enabled (state logoReady) ClickGenerateVideo = true)
    by (vm_compute; reflexivity).
  assert (Hprompt : trim (animationPrompt (state logoReady)) <> [])
    by (vm_compute; discriminate).
  destruct (animation_clicks_overlap logoReady obliging Hm Hen Hprompt
              eq_refl) as (Hstate & _ & Hcalls).
  split; [exact Hstate | exact Hcalls].
Defined.
